(** * dhcp-hosts-updater: the hosts-table reconciler

    A shallow embedding of [updateHostsFile] and
    [removeHostsThatMatchIPAndNotDomain] (src/main.go, src/host.go,
    src/pkg/host/updater.go) and of [Updater.Update]
    (src/pkg/host/updater.go), together with the operations of the
    [hostess] package that they call. *)

From stdpp Require Import gmap strings list fin_maps pretty.
From Stdlib Require Import Ascii String.

#[local] Set Warnings "-clear-no-such-hyp".

Local Open Scope string_scope.
Local Open Scope list_scope.

(** ** Go's [strings] package, on byte strings *)
Module strings.

(** [c += 'a' - 'A'] for ['A' <= c && c <= 'Z'] *)
Definition lower_byte (c : ascii) : ascii :=
  let n := nat_of_ascii c in
  if (65 <=? n)%nat && (n <=? 90)%nat then ascii_of_nat (n + 32) else c.

(** Every byte is below [utf8.RuneSelf]. *)
Fixpoint isASCII (s : string) : bool :=
  match s with
  | EmptyString => true
  | String c s' => (nat_of_ascii c <? 128)%nat && isASCII s'
  end.

(** The bytes of an ASCII string with the upper-case letters lowered. *)
Fixpoint lowerASCII (s : string) : string :=
  match s with
  | EmptyString => EmptyString
  | String c s' => String (lower_byte c) (lowerASCII s')
  end.

(** [strings.Map(unicode.ToLower, s)]: the case tables of Unicode are left
    open. *)
Class Unicode : Type := {
  mapToLower : string -> string
}.

(** [func ToLower(s string) string]: an ASCII string is lowered byte by
    byte; a string with a byte outside ASCII goes through the case tables. *)
Definition ToLower `{!Unicode} (s : string) : string :=
  if isASCII s then lowerASCII s else mapToLower s.

(** [strings.Contains(s, substr)], [strings.ReplaceAll(s, old, new)] and
    [strings.Split(s, sep)], for a [substr], an [old] and a [sep] of one
    byte, which is what every call in the repository passes. *)
Fixpoint Contains (s : string) (substr : ascii) : bool :=
  match s with
  | EmptyString => false
  | String c s' => bool_decide (c = substr) || Contains s' substr
  end.

Fixpoint ReplaceAll (s : string) (old : ascii) (new : string) : string :=
  match s with
  | EmptyString => EmptyString
  | String c s' =>
      if bool_decide (c = old) then new +:+ ReplaceAll s' old new
      else String c (ReplaceAll s' old new)
  end.

(** The parts between the separators: one more than there are separators,
    so one empty part for the empty string. *)
Fixpoint Split (s : string) (sep : ascii) : list string :=
  match s with
  | EmptyString => [EmptyString]
  | String c s' =>
      if bool_decide (c = sep) then EmptyString :: Split s' sep
      else match Split s' sep with
           | part :: parts => String c part :: parts
           | [] => [String c EmptyString]
           end
  end.

End strings.

(** ** Addresses

    A [net.IP], taken up to [net.IP.Equal] (which identifies a 4-byte address
    with its 16-byte IPv4-mapped form): the nil [net.IP], which
    [net.ParseIP] returns for a string that is no address and which the
    providers hand over as it is, an IPv4 address or an IPv6 address, given
    by its numeric value. *)
Module net.

Inductive IP : Type :=
  | Nil
  | V4 (addr : N)
  | V6 (addr : N).

#[global] Instance IP_eq_dec : EqDecision IP.
Proof. solve_decision. Defined.

(** [ip.Equal(x)]; the nil address is equal to itself only. *)
Definition Equal (ip x : IP) : bool := bool_decide (ip = x).

(** dotted quad [a.b.c.d] *)
Definition ipv4 (a b c d : N) : IP := V4 (((a * 256 + b) * 256 + c) * 256 + d)%N.

(** [net.HardwareAddr]: the bytes of the address. *)
Abbreviation HardwareAddr := (list N).

End net.

(** ** The [hostess] package (github.com/cbednarski/hostess)

    Every copy of [updateHostsFile] works on a [hostess.Hostlist]. The
    package is a dependency: its source is not under src/. The definitions
    below follow its exported [Hostname] and [Hostlist] API, as far as the
    reconciler calls it. The package documents a [Hostlist] as a set of
    [Hostname]s in which a name may occur once per IP version, [Add] as
    merging (the last write wins for a name already there), and [Enable] as
    enabling every [Hostname] of the domain. *)
Module hostess.

(** [type Hostname struct { Domain string; IP net.IP; Enabled bool; IPv6 bool }].
    [NewHostname] sets [IPv6] from the address and nothing writes it
    afterwards; every entry of a [Hostlist] is built by [NewHostname]
    (see [Add]), so the field is a function of [IP], and the address of an
    entry of a [Hostlist] is not nil. *)
Record Hostname : Type := mkHostname {
  Domain : string;
  IP : net.IP;
  Enabled : bool
}.

#[global] Instance Hostname_eq_dec : EqDecision Hostname.
Proof. solve_decision. Defined.

Definition IPv6 (h : Hostname) : bool :=
  match IP h with net.V6 _ => true | _ => false end.

(** [type Hostlist []*Hostname], in list order. *)
Abbreviation Hostlist := (list Hostname).

(** [func (h *Hostname) Equal(n *Hostname) bool]: domain and address, the
    enabled flag is not compared. *)
Definition Equal (h n : Hostname) : bool :=
  bool_decide (Domain h = Domain n) && net.Equal (IP h) (IP n).

(** [func (h *Hostname) EqualIP(ip net.IP) bool] *)
Definition EqualIP (h : Hostname) (ip : net.IP) : bool := net.Equal (IP h) ip.

(** [func (h *Hostlist) ContainsIP(IP net.IP) bool] *)
Definition ContainsIP (h : Hostlist) (ip : net.IP) : bool :=
  existsb (fun hostname => EqualIP hostname ip) h.

(** [func (h *Hostlist) FilterByIP(IP net.IP) (hostnames []*Hostname)]: a
    fresh slice of the entries with that address, in list order. *)
Definition FilterByIP (h : Hostlist) (ip : net.IP) : list Hostname :=
  filter (fun hostname => net.Equal (IP hostname) ip = true) h.

(** [func (h *Hostlist) IndexOf(host *Hostname) int]: the index of the first
    entry [Equal] to [host]; [None] stands for [-1]. *)
Fixpoint IndexOf (h : Hostlist) (host : Hostname) : option nat :=
  match h with
  | [] => None
  | found :: rest =>
      if Equal found host then Some 0%nat
      else match IndexOf rest host with
           | Some i => Some (S i)
           | None => None
           end
  end.

(** [func (h *Hostlist) Remove(index int) int]: deletes the entry at [index];
    out of bounds (such as [-1]) it does nothing. *)
Definition Remove (h : Hostlist) (index : option nat) : Hostlist :=
  match index with
  | Some i => if bool_decide (i < List.length h)%nat then take i h ++ drop (S i) h else h
  | None => h
  end.

Definition enable (hostname : Hostname) : Hostname :=
  {| Domain := Domain hostname; IP := IP hostname; Enabled := true |}.

(** [func (h *Hostlist) Enable(domain string) bool]: sets the flag of every
    entry whose [Domain] is [domain] (compared with [==]). *)
Definition enableIf (domain : string) (hostname : Hostname) : Hostname :=
  if bool_decide (Domain hostname = domain) then enable hostname else hostname.

Definition Enable (h : Hostlist) (domain : string) : Hostlist :=
  List.map (enableIf domain) h.

(** The loop of [Add] over the list, and the [append] behind it: the first
    entry that is [Equal] to the new one absorbs it (its flag becomes the
    disjunction), the first entry with the same domain and IP version is
    overwritten by it; with neither, the new entry is appended. *)
Fixpoint addLoop (h : Hostlist) (hostname : Hostname) : Hostlist :=
  match h with
  | [] => [hostname]
  | found :: rest =>
      if Equal found hostname then
        {| Domain := Domain found; IP := IP found;
           Enabled := Enabled found || Enabled hostname |} :: rest
      else if bool_decide (Domain found = Domain hostname)
              && bool_decide (IPv6 found = IPv6 hostname) then
        hostname :: rest
      else found :: addLoop rest hostname
  end.

(** [func (h *Hostlist) Add(hostnamev *Hostname) error]. The entry is built
    anew with [NewHostname] from the domain, the text of the address and the
    flag. For the nil address, whose text is no address, [NewHostname] fails
    and [Add] returns its error with the list as it was; otherwise the list
    is scanned. The returned error, which in the other cases only reports
    whether an entry absorbed the new one or was overwritten, is dropped by
    [updateHostsFile]. *)
Definition Add (h : Hostlist) (hostnamev : Hostname) : Hostlist :=
  if bool_decide (IP hostnamev = net.Nil) then h else addLoop h hostnamev.

End hostess.

Import hostess.

Abbreviation Mapping := (list (string * net.IP)).

(** ** The reconciler *)

(** The loop of [removeHostsThatMatchIPAndNotDomain] over the slice returned
    by [FilterByIP], threading the host list and [entryForIPHasDomain].

    The slice holds the list's own pointers, so [matchingEntry.Enabled] is
    the entry's current flag. It differs from the flag of the slice taken
    before the loop only for an entry that an earlier [Enable(domain)] of
    this loop has enabled; for that entry the source skips a call that
    would change nothing ([Enable_idemp], and [X2_removeHosts_pointers] for the
    function with the pointers spelled out). *)
Fixpoint removeLoop `{!strings.Unicode} (matching : list Hostname) (hosts : Hostlist)
    (domain : string) (entryForIPHasDomain : bool) : Hostlist * bool :=
  match matching with
  | [] => (hosts, entryForIPHasDomain)
  | matchingEntry :: rest =>
      if bool_decide (strings.ToLower (Domain matchingEntry) = strings.ToLower domain) then
        let hosts' := if negb (Enabled matchingEntry) then Enable hosts domain else hosts in
        removeLoop rest hosts' domain true
      else
        removeLoop rest (Remove hosts (IndexOf hosts matchingEntry)) domain entryForIPHasDomain
  end.

(** [func removeHostsThatMatchIPAndNotDomain(hosts *hostess.Hostlist, ip net.IP, domain string) bool]:
    the updated list and the returned flag. *)
Definition removeHostsThatMatchIPAndNotDomain `{!strings.Unicode} (hosts : Hostlist)
    (ip : net.IP)
    (domain : string) : Hostlist * bool :=
  if ContainsIP hosts ip then removeLoop (FilterByIP hosts ip) hosts domain false
  else (hosts, false).

(** One iteration of the [for ... range hosts] loop of [updateHostsFile]. *)
Definition updateHost `{!strings.Unicode} (hosts : Hostlist) (host : string * net.IP) :
    Hostlist :=
  let '(name, ip) := host in
  if bool_decide (name = "") then hosts
  else
    let '(hosts', found) := removeHostsThatMatchIPAndNotDomain hosts ip name in
    if found then hosts'
    else Add hosts' {| Domain := name; IP := ip; Enabled := true |}.

(** The whole loop. [mapping] lists the pairs in the order the loop visits
    them: the slice order in src/main.go, some enumeration of the map (keys
    pairwise distinct) in src/host.go and src/pkg/host/updater.go. *)
Definition reconcile `{!strings.Unicode} (hosts : Hostlist) (mapping : list (string * net.IP)) :
    Hostlist :=
  fold_left updateHost mapping hosts.

(** ** The same function over pointers

    [Hostlist] is [[]*Hostname]: the list and the slice of [FilterByIP] hold
    pointers to the same [Hostname] values, and [Enable] writes through them.
    This is [removeHostsThatMatchIPAndNotDomain] with the pointers and the
    memory spelled out; [X2_removeHosts_pointers] below shows that it computes
    what the definition over values computes. *)
Module pointers.

(** The [Hostname] at each address. *)
Definition Memory : Type := nat -> Hostname.

Definition store (p : nat) (v : Hostname) (m : Memory) : Memory :=
  fun q => if bool_decide (q = p) then v else m q.

(** The host list as values. *)
Definition view (m : Memory) (h : list nat) : Hostlist := m <$> h.

Definition ContainsIP (m : Memory) (h : list nat) (ip : net.IP) : bool :=
  existsb (fun hostname => EqualIP (m hostname) ip) h.

Definition FilterByIP (m : Memory) (h : list nat) (ip : net.IP) : list nat :=
  filter (fun hostname => net.Equal (IP (m hostname)) ip = true) h.

Fixpoint IndexOf (m : Memory) (h : list nat) (host : Hostname) : option nat :=
  match h with
  | [] => None
  | found :: rest =>
      if Equal (m found) host then Some 0%nat
      else match IndexOf m rest host with
           | Some i => Some (S i)
           | None => None
           end
  end.

Definition Remove (h : list nat) (index : option nat) : list nat :=
  match index with
  | Some i => if bool_decide (i < List.length h)%nat then take i h ++ drop (S i) h else h
  | None => h
  end.

(** [for _, hostname := range *h { if hostname.Domain == domain { hostname.Enabled = true } }] *)
Fixpoint Enable (h : list nat) (domain : string) (m : Memory) : Memory :=
  match h with
  | [] => m
  | hostname :: rest =>
      Enable rest domain
        (if bool_decide (Domain (m hostname) = domain)
         then store hostname (enable (m hostname)) m else m)
  end.

Fixpoint removeLoop `{!strings.Unicode} (matching : list nat) (m : Memory) (hosts : list nat)
    (domain : string) (entryForIPHasDomain : bool) : Memory * list nat * bool :=
  match matching with
  | [] => (m, hosts, entryForIPHasDomain)
  | matchingEntry :: rest =>
      if bool_decide (strings.ToLower (Domain (m matchingEntry)) = strings.ToLower domain) then
        let m' := if negb (Enabled (m matchingEntry)) then Enable hosts domain m else m in
        removeLoop rest m' hosts domain true
      else
        removeLoop rest m (Remove hosts (IndexOf m hosts (m matchingEntry))) domain
          entryForIPHasDomain
  end.

Definition removeHostsThatMatchIPAndNotDomain `{!strings.Unicode} (m : Memory) (hosts : list nat)
    (ip : net.IP) (domain : string) : Memory * list nat * bool :=
  if ContainsIP m hosts ip then removeLoop (FilterByIP m hosts ip) m hosts domain false
  else (m, hosts, false).

End pointers.

(** ** The update pipeline *)

(** Go's [error], by its message; [nil] is [None]. *)
Abbreviation error := string.

(** What the pipeline sees of the hosts file and of the terminal: the outcome
    of [hostfile.Read] and [hostfile.Parse] on the file as it is, whether
    [hostfile.Save] will fail, the tables handed to a successful [Save]
    (latest first) and the values printed. *)
Record Store : Type := mkStore {
  readError : option error;
  parsedHosts : Hostlist;
  parseErrors : list error;
  saveError : option error;
  saved : list Hostlist;
  stdout : list (string + Hostlist)
}.

(** [hostfile.Read()] *)
Definition Read (w : Store) : option error := readError w.

(** [hostfile.Parse()]: fills [hostfile.Hosts] and returns the errors. *)
Definition Parse (w : Store) : Hostlist * list error := (parsedHosts w, parseErrors w).

(** [hostfile.Save()] of the host list [hosts]. *)
Definition Save (hosts : Hostlist) (w : Store) : option error * Store :=
  match saveError w with
  | Some err => (Some err, w)
  | None =>
      (None,
       {| readError := readError w; parsedHosts := parsedHosts w;
          parseErrors := parseErrors w; saveError := saveError w;
          saved := hosts :: saved w; stdout := stdout w |})
  end.

(** [fmt.Println] of a string, and of the JSON of a host list
    ([hostfile.Hosts.Dump()], which does not fail on a host list). *)
Definition Println (line : string + Hostlist) (w : Store) : Store :=
  {| readError := readError w; parsedHosts := parsedHosts w;
     parseErrors := parseErrors w; saveError := saveError w;
     saved := saved w; stdout := stdout w ++ [line] |}.

(** [%v] of a slice of errors: the messages between brackets, separated by
    spaces. *)
Definition formatErrors (errs : list error) : string :=
  "[" +:+ String.concat " " errs +:+ "]".

(** [fmt.Errorf("multiple errors parsing hosts file! %v", errs)] *)
Definition parseErrorsError (errs : list error) : error :=
  "multiple errors parsing hosts file! " +:+ formatErrors errs.

(** ** What the providers call outside the repository *)

Module http.

(** [http.Response], as far as the providers read it. *)
Record Response : Type := mkResponse {
  StatusCode : Z;
  Body : string
}.

Definition StatusOK : Z := 200.

End http.

(** The functions of Go's standard library that the providers call and that
    are left open: [net.ParseIP] (which returns the nil address for a string
    that is no address), [net.ParseMAC], [HardwareAddr.String], the verb
    [%q] of [fmt] and the error of [cookiejar.New]. *)
Class GoLibrary : Type := {
  ParseIP : string -> net.IP;
  ParseMAC : string -> net.HardwareAddr + error;
  HardwareAddrString : net.HardwareAddr -> string;
  Quote : string -> string;
  cookiejarNew : option error
}.

(** The router as the HTTP client sees it: what [Get], [PostForm] and [Post]
    of the client return for a URL (and a form, or a content type and a
    body). *)
Class Network : Type := {
  Get : string -> http.Response + error;
  PostForm : string -> list (string * list string) -> http.Response + error;
  Post : string -> string -> string -> http.Response + error
}.

(** How a call that returns a value ends: with the value, with an error, or
    in a panic. *)
Inductive Result (A : Type) : Type :=
  | Ok (a : A)
  | Err (err : error)
  | Panic.

Arguments Ok {A} a.
Arguments Err {A} err.
Arguments Panic {A}.

(** The double quote. *)
Definition dquote : string := String "034"%char EmptyString.

(** src/main.go (and, with a map for the slice, the second file of
    src/host.go). *)
Module main.

(** [type Host struct { Name string; IP net.IP; MAC net.HardwareAddr }] *)
Record Host : Type := mkHost {
  Name : string;
  IP : net.IP;
  MAC : list N
}.

(** [func updateHostsFile(hosts []Host) error] *)
Definition updateHostsFile `{!strings.Unicode} (hosts : list Host) (w : Store) :
    option error * Store :=
  match Read w with
  | Some err => (Some err, w)
  | None =>
      let '(hostfileHosts, errs) := Parse w in
      if negb (List.length errs =? 0)%nat then (Some (parseErrorsError errs), w)
      else Save (reconcile hostfileHosts ((fun host => (Name host, IP host)) <$> hosts)) w
  end.

(** [func parseMacOverrides(overrides []string) (map[string]string, error)].
    [len(parts) != 2] is the case of a list that is not of two parts. *)
Fixpoint parseMacOverridesFrom `{!strings.Unicode, !GoLibrary} (overrides : list string)
    (toReturn : gmap string string) : gmap string string + error :=
  match overrides with
  | [] => inl toReturn
  | override :: rest =>
      match strings.Split override "="%char with
      | [part0; part1] =>
          parseMacOverridesFrom rest (<[strings.ToLower part0 := part1]> toReturn)
      | _ =>
          inr ("MAC override " +:+ Quote override
               +:+ " was not properly formatted as mac=overridden-hostname")
      end
  end.

Definition parseMacOverrides `{!strings.Unicode, !GoLibrary} (overrides : list string) :
    gmap string string + error :=
  parseMacOverridesFrom overrides ∅.

(** One iteration of the loop of [main] over the hosts of the provider: the
    new [hosts[i]]. Both tests read [host], the copy that [range] made. *)
Definition renameHost `{!strings.Unicode, !GoLibrary} (macOverrides : gmap string string)
    (host : Host) :
    Host :=
  let name :=
    if strings.Contains (Name host) " "%char
    then strings.ReplaceAll (Name host) " "%char "-"
    else Name host in
  match macOverrides !! strings.ToLower (HardwareAddrString (MAC host)) with
  | Some override => {| Name := override; IP := IP host; MAC := MAC host |}
  | None => {| Name := name; IP := IP host; MAC := MAC host |}
  end.

(** The loop: the hosts afterwards, and what [fmt.Println(host.Name, host.MAC)]
    printed, which is the name and the address of the copy. *)
Definition renameHosts `{!strings.Unicode, !GoLibrary} (macOverrides : gmap string string)
    (hosts : list Host) : list Host * list (string * net.HardwareAddr) :=
  (renameHost macOverrides <$> hosts, (fun host => (Name host, MAC host)) <$> hosts).

End main.

(** src/pkg/host/updater.go *)
Module host.

(** [type ServerProvider struct]. [GetHostsFn] is a func value, [None] when
    it is [nil]; its result lists the returned map in the order in which
    [updateHostsFile] will range over it. *)
Record ServerProvider : Type := mkServerProvider {
  ID : string;
  RequiredFlags : gmap string string;
  OptionalFlags : gmap string string;
  GetHostsFn : option (gmap string string -> Mapping + error)
}.

(** The zero value of [ServerProvider]: what indexing the map with an absent
    key yields. *)
Definition zeroServerProvider : ServerProvider :=
  {| ID := ""; RequiredFlags := ∅; OptionalFlags := ∅; GetHostsFn := None |}.

(** [type Updater struct { servers map[string]ServerProvider }] *)
Record Updater : Type := mkUpdater {
  servers : gmap string ServerProvider
}.

(** [func NewUpdater() *Updater] *)
Definition NewUpdater : Updater := {| servers := ∅ |}.

(** [func (u *Updater) WithServer(server *ServerProvider) *Updater] *)
Definition WithServer (u : Updater) (server : ServerProvider) : Updater :=
  {| servers := <[ID server := server]> (servers u) |}.

(** [func updateHostsFile(hosts map[string]net.IP) error]: after the loop the
    host list is printed and [nil] is returned; the call of [Save] is
    commented out. *)
Definition updateHostsFile `{!strings.Unicode} (hosts : Mapping) (w : Store) :
    option error * Store :=
  match Read w with
  | Some err => (Some err, w)
  | None =>
      let '(hostfileHosts, errs) := Parse w in
      if negb (List.length errs =? 0)%nat then (Some (parseErrorsError errs), w)
      else
        let hostfileHosts' := reconcile hostfileHosts hosts in
        (None, Println (inr hostfileHosts') (Println (inl "hostfile.Hosts") w))
  end.

(** How a call ends: it returns an error value, or it panics. *)
Inductive Outcome : Type :=
  | Returned (err : option error)
  | Panicked.

(** [func (u *Updater) Update(server string, flags map[string]string) error] *)
Definition Update `{!strings.Unicode} (u : Updater) (server : string)
    (flags : gmap string string)
    (w : Store) : Outcome * Store :=
  match GetHostsFn (default zeroServerProvider (servers u !! server)) with
  | None => (Panicked, w)
  | Some getHosts =>
      match getHosts flags with
      | inr err => (Returned (Some ("could not update.... " +:+ err)), w)
      | inl hosts =>
          let '(err, w') := updateHostsFile hosts w in (Returned err, w')
      end
  end.

End host.

(** src/internal/edgeos/edgeos.go *)
Module edgeos.

(** [func Provider() *host.ServerProvider]. Its [GetHostsFn] logs in to the
    router and reads the leases and the static mappings over HTTP; here it
    is whatever function of the flags [getHosts] is. *)
Definition Provider (getHosts : gmap string string -> Mapping + error) :
    host.ServerProvider :=
  {| host.ID := "edgeos";
     host.RequiredFlags :=
       {[ "address" := "the address of the edgeos server";
          "username" := "the username for the edgeos server";
          "password" := "the password for the edgeos server" ]};
     host.OptionalFlags := ∅;
     host.GetHostsFn := Some getHosts |}.

(** The response of [/api/edge/data.json?data=dhcp_leases]. A map that the
    code only ranges over is the list of its entries in the order in which
    [range] visits them. *)
Record dhcpServerLease : Type := mkDhcpServerLease {
  ClientHostname : string
}.

(** [type dhcpServerLeaseGroup map[string]dhcpServerLease], by address. *)
Abbreviation dhcpServerLeaseGroup := (list (string * dhcpServerLease)).

Record dhcpLeasesOutput : Type := mkDhcpLeasesOutput {
  DHCPServerLeases : list (string * dhcpServerLeaseGroup)
}.

Record dhcpLeasesResponse : Type := mkDhcpLeasesResponse {
  Success : string;
  Output : dhcpLeasesOutput
}.

(** The response of [/api/edge/get.json]. *)
Record edgeOSStaticMapping : Type := mkEdgeOSStaticMapping {
  IPAddress : string
}.

Record edgeOSSubnet : Type := mkEdgeOSSubnet {
  StaticMapping : list (string * edgeOSStaticMapping)
}.

Record edgeOSSharedNetwork : Type := mkEdgeOSSharedNetwork {
  Subnet : list (string * edgeOSSubnet)
}.

Record edgeOSDHCPServer : Type := mkEdgeOSDHCPServer {
  SharedNetwork : list (string * edgeOSSharedNetwork)
}.

Record edgeOSService : Type := mkEdgeOSService {
  DHCPServer : edgeOSDHCPServer
}.

Record get : Type := mkGet {
  Service : edgeOSService
}.

Record edgeOSGet : Type := mkEdgeOSGet {
  GET : get
}.

(** [json.NewDecoder(resp.Body).Decode] into the two responses, as a function
    of the body. *)
Class Json : Type := {
  decodeLeases : string -> dhcpLeasesResponse + error;
  decodeGet : string -> edgeOSGet + error
}.

(** [type client struct]; the HTTP client it holds is the one of [Network]. *)
Record client : Type := mkClient {
  address : string
}.

Section functions.

Context `{!GoLibrary, !Network, !Json}.

(** [func newClient(address, username, password string, httpClient *http.Client)],
    which returns a [*client] and an [error].
    The response to the login form is not looked at. *)
Definition newClient (address username password : string) : client + error :=
  match cookiejarNew with
  | Some err => inr err
  | None =>
      match PostForm ("https://" +:+ address +:+ "/")
              [("username", [username]); ("password", [password])] with
      | inr err => inr err
      | inl _ => inl {| address := address |}
      end
  end.

(** The two nested loops of [populateDynamicHosts]. *)
Definition addLeases (leases : list (string * dhcpServerLeaseGroup))
    (hosts : gmap string net.IP) : gmap string net.IP :=
  foldl (fun hosts group =>
           foldl (fun hosts lease =>
                    <[ClientHostname lease.2 := ParseIP lease.1]> hosts)
                 hosts group.2)
        hosts leases.

(** [func (c *client) populateDynamicHosts(hosts map[string]net.IP) error]:
    the map afterwards and the error. *)
Definition populateDynamicHosts (c : client) (hosts : gmap string net.IP) :
    gmap string net.IP * option error :=
  match Get ("https://" +:+ address c +:+ "/api/edge/data.json?data=dhcp_leases") with
  | inr err => (hosts, Some ("could get dynamic hosts: " +:+ err))
  | inl resp =>
      if negb (bool_decide (http.StatusCode resp = http.StatusOK)) then
        (hosts,
         Some ("request for dynamic hosts returned a non 200 status code "
               +:+ dquote +:+ pretty (http.StatusCode resp) +:+ dquote))
      else
        match decodeLeases (http.Body resp) with
        | inr err =>
            (hosts, Some ("could not unmarshal response of dynamic hosts: " +:+ err))
        | inl decodedResp =>
            (addLeases (DHCPServerLeases (Output decodedResp)) hosts, None)
        end
  end.

(** The three nested loops of [populateStaticHosts]. *)
Definition addStaticMappings (sharedNetworks : list (string * edgeOSSharedNetwork))
    (hosts : gmap string net.IP) : gmap string net.IP :=
  foldl (fun hosts sharedNetwork =>
           foldl (fun hosts subnet =>
                    foldl (fun hosts staticMapping =>
                             <[staticMapping.1 := ParseIP (IPAddress staticMapping.2)]> hosts)
                          hosts (StaticMapping subnet.2))
                 hosts (Subnet sharedNetwork.2))
        hosts sharedNetworks.

(** [func (c *client) populateStaticHosts(hosts map[string]net.IP) error] *)
Definition populateStaticHosts (c : client) (hosts : gmap string net.IP) :
    gmap string net.IP * option error :=
  match Get ("https://" +:+ address c +:+ "/api/edge/get.json") with
  | inr err => (hosts, Some ("could get static hosts: " +:+ err))
  | inl resp =>
      if negb (bool_decide (http.StatusCode resp = http.StatusOK)) then
        (hosts,
         Some ("request for static hosts returned a non 200 status code "
               +:+ dquote +:+ pretty (http.StatusCode resp) +:+ dquote))
      else
        match decodeGet (http.Body resp) with
        | inr err =>
            (hosts, Some ("could not unmarshal response of static hosts: " +:+ err))
        | inl decodedResp =>
            (addStaticMappings (SharedNetwork (DHCPServer (Service (GET decodedResp)))) hosts,
             None)
        end
  end.

(** The [GetHostsFn] of [Provider()], with the map it returns. A flag that is
    not in [flags] reads as the empty string. [Provider] above takes this
    function followed by the enumeration of the map as its [getHosts]. *)
Definition GetHostsFn (flags : gmap string string) : gmap string net.IP + error :=
  match newClient (default "" (flags !! "address")) (default "" (flags !! "username"))
          (default "" (flags !! "password")) with
  | inr err => inr ("could not build edgeos client: " +:+ err)
  | inl c =>
      match populateDynamicHosts c ∅ with
      | (_, Some err) => inr err
      | (hosts, None) =>
          match populateStaticHosts c hosts with
          | (_, Some err) => inr err
          | (hosts', None) => inl hosts'
          end
      end
  end.

End functions.

End edgeos.

(** src/udm-pro.go *)
Module udmProHostsProvider.

(** An element of [clientResponse]. *)
Record clientResponseItem : Type := mkClientResponseItem {
  DisplayName : string;
  ItemIP : string;
  Hostname : string;
  ItemMAC : string
}.

(** An element of [sitesResponse.Data]. *)
Record sitesResponseItem : Type := mkSitesResponseItem {
  SiteName : string
}.

(** [json.NewDecoder(resp.Body).Decode] into [clientResponse] and
    [sitesResponse], and [json.Marshal] of the login values. *)
Class Json : Type := {
  decodeClients : string -> list clientResponseItem + error;
  decodeSites : string -> list sitesResponseItem + error;
  marshalLogin : string -> string -> string
}.

(** [type udmProHostsProvider struct] *)
Record udmProHostsProvider : Type := mkProvider {
  address : string;
  site : string
}.

Section functions.

Context `{!GoLibrary, !Network, !Json}.

(** The loop of [GetHosts] over the decoded devices. *)
Fixpoint hostsOf (decodedResp : list clientResponseItem) (toReturn : list main.Host) :
    list main.Host + error :=
  match decodedResp with
  | [] => inl toReturn
  | device :: rest =>
      match ParseMAC (ItemMAC device) with
      | inr err => inr err
      | inl mac =>
          let hostname :=
            if (String.length (Hostname device) =? 0)%nat then DisplayName device
            else Hostname device in
          hostsOf rest
            (toReturn ++ [{| main.Name := hostname; main.IP := ParseIP (ItemIP device);
                             main.MAC := mac |}])
      end
  end.

(** [func (u *udmProHostsProvider) GetHosts() ([]Host, error)] *)
Definition GetHosts (u : udmProHostsProvider) : list main.Host + error :=
  match Get ("https://" +:+ address u +:+ "/proxy/network/v2/api/site/" +:+ site u
             +:+ "/clients/active") with
  | inr err => inr err
  | inl resp =>
      match decodeClients (http.Body resp) with
      | inr err => inr err
      | inl decodedResp => hostsOf decodedResp []
      end
  end.

(** [func newUDMProHostsProvider(address, username, password string) (externalHostsProvider, error)].
    [decodedResp.Data[0]] panics on an empty list of sites. *)
Definition newUDMProHostsProvider (address username password : string) :
    Result udmProHostsProvider :=
  match cookiejarNew with
  | Some err => Err err
  | None =>
      match Post ("https://" +:+ address +:+ "/api/auth/login") "application/json"
              (marshalLogin username password) with
      | inr err => Err err
      | inl _ =>
          match Get ("https://" +:+ address +:+ "/proxy/network/api/self/sites") with
          | inr err => Err err
          | inl resp =>
              match decodeSites (http.Body resp) with
              | inr err => Err err
              | inl data =>
                  match data with
                  | [] => Panic
                  | first :: _ => Ok {| address := address; site := SiteName first |}
                  end
              end
          end
      end
  end.

End functions.

End udmProHostsProvider.

(** src/edgeos.go *)
Module edgeOSHostsProvider.

(** [type dhcpServerLease struct] of this file. *)
Record dhcpServerLease : Type := mkDhcpServerLease {
  Expiration : string;
  Pool : string;
  Mac : string;
  ClientHostname : string
}.

(** [json.NewDecoder(resp.Body).Decode] into [dhcpLeasesResponse] (its
    [Output.DHCPServerLeases]) and into [edgeOSGet] (its shared networks, of
    the types of the same names in [edgeos]). *)
Class Json : Type := {
  decodeLeases : string -> list (string * list (string * dhcpServerLease)) + error;
  decodeGet : string -> list (string * edgeos.edgeOSSharedNetwork) + error
}.

(** [type edgeOSHostsProvider struct] *)
Record edgeOSHostsProvider : Type := mkProvider {
  address : string
}.

Section functions.

Context `{!GoLibrary, !Network, !Json}.

(** [func (e *edgeOSHostsProvider) getStaticHosts() map[string]net.IP]:
    [None] when it panics. *)
Definition getStaticHosts (e : edgeOSHostsProvider) : option (gmap string net.IP) :=
  match Get ("https://" +:+ address e +:+ "/api/edge/get.json") with
  | inr _ => None
  | inl resp =>
      match decodeGet (http.Body resp) with
      | inr _ => None
      | inl sharedNetworks =>
          Some (foldl (fun toReturn sharedNetwork =>
                         foldl (fun toReturn subnet =>
                                  foldl (fun toReturn staticMapping =>
                                           <[staticMapping.1
                                               := ParseIP (edgeos.IPAddress staticMapping.2)]>
                                             toReturn)
                                        toReturn (edgeos.StaticMapping subnet.2))
                               toReturn (edgeos.Subnet sharedNetwork.2))
                      ∅ sharedNetworks)
      end
  end.

(** [func (e *edgeOSHostsProvider) GetHosts() map[string]net.IP]: [None] when
    it panics. *)
Definition GetHosts (e : edgeOSHostsProvider) : option (gmap string net.IP) :=
  match Get ("https://" +:+ address e +:+ "/api/edge/data.json?data=dhcp_leases") with
  | inr _ => None
  | inl resp =>
      match decodeLeases (http.Body resp) with
      | inr _ => None
      | inl leases =>
          match getStaticHosts e with
          | None => None
          | Some toReturn =>
              Some (foldl (fun toReturn value =>
                             foldl (fun toReturn lease =>
                                      <[ClientHostname lease.2 := ParseIP lease.1]> toReturn)
                                   toReturn value.2)
                          toReturn leases)
          end
      end
  end.

(** [func newEdgeOSHostsProvider(address, username, password string) (externalHostsProvider, error)] *)
Definition newEdgeOSHostsProvider (address username password : string) :
    edgeOSHostsProvider + error :=
  match cookiejarNew with
  | Some err => inr err
  | None =>
      match PostForm ("https://" +:+ address +:+ "/")
              [("username", [username]); ("password", [password])] with
      | inr err => inr err
      | inl _ => inl {| address := address |}
      end
  end.

End functions.

End edgeOSHostsProvider.

(** ** Auxiliary notions for the statements *)

(** The stored name equals [domain] up to case. *)
Definition sameName `{!strings.Unicode} (domain : string) (e : Hostname) : Prop :=
  strings.ToLower (Domain e) = strings.ToLower domain.

(** An entry that holds [ip] under another name. *)
Definition stale `{!strings.Unicode} (ip : net.IP) (domain : string) (e : Hostname) : Prop :=
  IP e = ip /\ ~ sameName domain e.

Definition hasMatch `{!strings.Unicode} (hosts : Hostlist) (ip : net.IP) (domain : string) :
    Prop :=
  Exists (fun e => IP e = ip /\ sameName domain e) hosts.

Definition hasDisabledMatch `{!strings.Unicode} (hosts : Hostlist) (ip : net.IP)
    (domain : string) : Prop :=
  Exists (fun e => (IP e = ip /\ sameName domain e) /\ Enabled e = false) hosts.

#[global] Instance sameName_dec `{!strings.Unicode} domain e : Decision (sameName domain e).
Proof. unfold sameName. apply _. Defined.

#[global] Instance stale_dec `{!strings.Unicode} ip domain e : Decision (stale ip domain e).
Proof. unfold stale. apply _. Defined.

#[global] Instance hasMatch_dec `{!strings.Unicode} hosts ip domain :
  Decision (hasMatch hosts ip domain).
Proof. unfold hasMatch. apply _. Defined.

#[global] Instance hasDisabledMatch_dec `{!strings.Unicode} hosts ip domain :
  Decision (hasDisabledMatch hosts ip domain).
Proof. unfold hasDisabledMatch. apply _. Defined.

(** [hosts.Remove(hosts.IndexOf(host))] *)
Definition removeFirst (hosts : Hostlist) (host : Hostname) : Hostlist :=
  Remove hosts (IndexOf hosts host).

(** The new entry and an entry of the list have the same domain and the
    same IP version: the case in which [Add] does not append. *)
Definition conflicts (x e : Hostname) : Prop :=
  Domain e = Domain x /\ IPv6 e = IPv6 x.

#[global] Instance conflicts_dec x e : Decision (conflicts x e).
Proof. unfold conflicts. apply _. Defined.

(** *** Well-formed host lists

    [Add] keeps the domains of a [Hostlist] pairwise distinct within each IP
    version; a list read by [Parse], which collects the entries with [Add],
    has this form. *)
Definition key (e : Hostname) : string * bool := (Domain e, IPv6 e).

Definition wellFormed (h : Hostlist) : Prop := NoDup (key <$> h).

(** The entry that [updateHostsFile] hands to [Add]. *)
Definition newEntry (name : string) (ip : net.IP) : Hostname :=
  {| Domain := name; IP := ip; Enabled := true |}.

Definition names (mapping : Mapping) : list string := mapping.*1.
Definition addresses (mapping : Mapping) : list net.IP := mapping.*2.
(** The names of the mapping up to case. *)
Definition lowerNames `{!strings.Unicode} (mapping : Mapping) : list string :=
  strings.ToLower <$> names mapping.

(** Every entry has an address: so it is in a list that [Parse] has read,
    whose entries [NewHostname] has built. *)
Definition addressed (h : Hostlist) : Prop := Forall (fun e => IP e <> net.Nil) h.

(** A pair on which the loop acts: it has a name and an address. For a pair
    without a name the loop goes on at once; the nil address is held by no
    entry of an addressed list, and [Add] refuses it. *)
Definition acts (p : string * net.IP) : Prop := p.1 <> "" /\ p.2 <> net.Nil.

#[global] Instance acts_dec p : Decision (acts p).
Proof. unfold acts. apply _. Defined.

(** *** Settled pairs

    A pair is settled in a table when its iteration has nothing left to do:
    the name is empty, or an entry holds the address under the name, no entry
    holds it under another name, and [Enable], if it is called, finds every
    entry of the name enabled. *)
Definition settled `{!strings.Unicode} (h : Hostlist) (p : string * net.IP) : Prop :=
  p.1 = "" \/
  (hasMatch h p.2 p.1 /\
   Forall (fun e => ~ stale p.2 p.1 e) h /\
   (hasDisabledMatch h p.2 p.1 -> Forall (fun e => Domain e = p.1 -> Enabled e = true) h)).

(** [updateHost] with the new entry put in front and every entry of its
    domain and IP version dropped: what [updateHost] computes on a well-formed
    list, up to the order of the entries ([updateHost_updateHostP]). *)
Definition updateHostP `{!strings.Unicode} (h : Hostlist) (p : string * net.IP) : Hostlist :=
  if bool_decide (p.1 = "") then h
  else if bool_decide (hasMatch h p.2 p.1) then
    let h' := filter (fun e => ~ stale p.2 p.1 e) h in
    if bool_decide (hasDisabledMatch h p.2 p.1) then Enable h' p.1 else h'
  else newEntry p.1 p.2
       :: filter (fun e => ~ conflicts (newEntry p.1 p.2) e /\ IP e <> p.2) h.

(** The loop over [updateHostP]. *)
Definition reconcileP `{!strings.Unicode} (hosts : Hostlist) (mapping : Mapping) : Hostlist :=
  fold_left updateHostP mapping hosts.

(** The value behind a pointer of the slice, against the value the slice had
    when [FilterByIP] returned it: the same, or enabled since by a call of
    [Enable domain], after which a further call changes nothing. *)
Definition tracks (m : pointers.Memory) (hosts : list nat) (domain : string)
    (p : nat) (s : Hostname) : Prop :=
  m p = s \/
  (m p = enable s /\ Domain s = domain /\
   Enable (pointers.view m hosts) domain = pointers.view m hosts).

(** An entry that shares neither its address nor its name with a pair of
    the mapping. *)
Definition unrelated (mapping : Mapping) (e : Hostname) : Prop :=
  (IP e ∉ addresses mapping) /\ (Domain e ∉ names mapping).

#[global] Instance unrelated_dec mapping e : Decision (unrelated mapping e).
Proof. unfold unrelated. apply _. Defined.

(** The name of the entry is, up to case, no name of the mapping. *)
Definition foreignName `{!strings.Unicode} (mapping : Mapping) (e : Hostname) : Prop :=
  strings.ToLower (Domain e) ∉ lowerNames mapping.

#[global] Instance foreignName_dec `{!strings.Unicode} mapping e :
  Decision (foreignName mapping e).
Proof. unfold foreignName. apply _. Defined.

(** How often the byte occurs in the string. *)
Fixpoint countByte (s : string) (c : ascii) : nat :=
  match s with
  | EmptyString => 0
  | String c' s' => (if bool_decide (c' = c) then 1 else 0) + countByte s' c
  end.

(** The flag [mac=name] of the pair. *)
Definition overrideFlag (p : string * string) : string := p.1 +:+ "=" +:+ p.2.

(** Neither the address nor the name of the pair holds ["="]. *)
Definition plainPair (p : string * string) : Prop :=
  strings.Contains p.1 "="%char = false /\ strings.Contains p.2 "="%char = false.

(** The error of [parseMacOverrides] for the override. *)
Definition overrideError `{!GoLibrary} (override : string) : error :=
  "MAC override " +:+ Quote override
  +:+ " was not properly formatted as mac=overridden-hostname".

(** The host that [GetHosts] of src/udm-pro.go returns for the device. *)
Definition hostOfDevice `{!GoLibrary} (device : udmProHostsProvider.clientResponseItem)
    (host : main.Host) : Prop :=
  ParseMAC (udmProHostsProvider.ItemMAC device) = inl (main.MAC host)
  /\ main.Name host
     = (if (String.length (udmProHostsProvider.Hostname device) =? 0)%nat
        then udmProHostsProvider.DisplayName device
        else udmProHostsProvider.Hostname device)
  /\ main.IP host = ParseIP (udmProHostsProvider.ItemIP device).

(** The leases of the groups, and the static mappings of the subnets of the
    shared networks, in the order in which the loops visit them. *)
Definition leasesOf {A : Type} (leases : list (string * list (string * A))) :
    list (string * A) :=
  List.concat (snd <$> leases).

Definition staticMappingsOf (sharedNetworks : list (string * edgeos.edgeOSSharedNetwork)) :
    list (string * edgeos.edgeOSStaticMapping) :=
  List.concat ((fun subnet => edgeos.StaticMapping subnet.2)
               <$> List.concat ((fun sharedNetwork => edgeos.Subnet sharedNetwork.2)
                                <$> sharedNetworks)).

(** What the loops of the providers write for the leases and for the static
    mappings: the name and the parsed address. *)
Definition leaseEntries `{!GoLibrary} {A : Type} (name : A -> string)
    (leases : list (string * A)) : list (string * net.IP) :=
  (fun lease => (name lease.2, ParseIP lease.1)) <$> leases.

Definition staticEntries `{!GoLibrary}
    (staticMappings : list (string * edgeos.edgeOSStaticMapping)) :
    list (string * net.IP) :=
  (fun staticMapping => (staticMapping.1, ParseIP (edgeos.IPAddress staticMapping.2)))
  <$> staticMappings.

(** The map holds, for a name of [first], an address that [first] gives it;
    for any other name of [second], an address that [second] gives it; and
    no other name. *)
Definition prefers (first second : list (string * net.IP))
    (hosts : gmap string net.IP) : Prop :=
  (forall name, name ∈ first.*1 ->
     exists ip, (name, ip) ∈ first /\ hosts !! name = Some ip)
  /\ (forall name, name ∉ first.*1 -> name ∈ second.*1 ->
        exists ip, (name, ip) ∈ second /\ hosts !! name = Some ip)
  /\ (forall name, name ∉ first.*1 -> name ∉ second.*1 -> hosts !! name = None).

(** ** Concrete tables *)

Definition ip_10_0_0_1 : net.IP := net.ipv4 10 0 0 1.
Definition ip_10_0_0_2 : net.IP := net.ipv4 10 0 0 2.
Definition ip_1_1_1_1 : net.IP := net.ipv4 1 1 1 1.
(** [fe80::1] *)
Definition ip_fe80_1 : net.IP := net.V6 (N.shiftl 65152 112 + 1)%N.

(** Case tables for the examples. Every name in the examples is ASCII, so
    that [ToLower] does not consult the tables ([ToLower_ASCII]) and what the
    examples show holds whatever the tables are; these leave a string as it
    is. *)
Definition noCaseTables : strings.Unicode :=
  {| strings.mapToLower := fun s => s |}.

(** ** A concrete library *)

Definition mac_aa : net.HardwareAddr := [170; 187; 204; 221; 238; 255]%N.

(** A library that knows two addresses and one hardware address. *)
Definition exampleLibrary : GoLibrary :=
  {| ParseIP := fun s =>
       if bool_decide (s = "10.0.0.1") then ip_10_0_0_1
       else if bool_decide (s = "10.0.0.2") then ip_10_0_0_2 else net.Nil;
     ParseMAC := fun s =>
       if bool_decide (s = "aa:bb:cc:dd:ee:ff") then inl mac_aa
       else inr ("address " +:+ s +:+ ": invalid MAC address");
     HardwareAddrString := fun mac =>
       if bool_decide (mac = mac_aa) then "aa:bb:cc:dd:ee:ff" else "";
     Quote := fun s => dquote +:+ s +:+ dquote;
     cookiejarNew := None |}.

(** A router at 192.168.1.1 that answers the requests of the providers and
    accepts any login. *)
Definition exampleNetwork : Network :=
  {| Get := fun url =>
       if bool_decide (url = "https://192.168.1.1/proxy/network/api/self/sites")
       then inl (http.mkResponse 200 "sites")
       else if bool_decide
                 (url = "https://192.168.1.1/proxy/network/v2/api/site/default/clients/active")
       then inl (http.mkResponse 200 "clients")
       else if bool_decide (url = "https://192.168.1.1/api/edge/data.json?data=dhcp_leases")
       then inl (http.mkResponse 200 "leases")
       else if bool_decide (url = "https://192.168.1.1/api/edge/get.json")
       then inl (http.mkResponse 200 "get")
       else inr "connection refused";
     PostForm := fun _ _ => inl (http.mkResponse 200 "");
     Post := fun _ _ _ => inl (http.mkResponse 200 "") |}.

(** The decoded bodies of that router. *)
Definition exampleUdmJson : udmProHostsProvider.Json :=
  {| udmProHostsProvider.decodeClients := fun body =>
       if bool_decide (body = "clients")
       then inl [udmProHostsProvider.mkClientResponseItem "My NAS" "10.0.0.1" ""
                   "aa:bb:cc:dd:ee:ff";
                 udmProHostsProvider.mkClientResponseItem "tv" "not an address" "living-room"
                   "aa:bb:cc:dd:ee:ff"]
       else inr "unexpected end of JSON input";
     udmProHostsProvider.decodeSites := fun body =>
       if bool_decide (body = "sites")
       then inl [udmProHostsProvider.mkSitesResponseItem "default"]
       else inr "unexpected end of JSON input";
     udmProHostsProvider.marshalLogin := fun username password =>
       username +:+ ":" +:+ password |}.

Definition exampleSharedNetworks : list (string * edgeos.edgeOSSharedNetwork) :=
  [("LAN", edgeos.mkEdgeOSSharedNetwork
             [("10.0.0.0/24",
               edgeos.mkEdgeOSSubnet [("nas", edgeos.mkEdgeOSStaticMapping "10.0.0.2")])])].

Definition exampleLeasesResponse : edgeos.dhcpLeasesResponse :=
  edgeos.mkDhcpLeasesResponse "1"
    (edgeos.mkDhcpLeasesOutput
       [("LAN", [("10.0.0.1", edgeos.mkDhcpServerLease "nas");
                 ("10.0.0.2", edgeos.mkDhcpServerLease "tv")])]).

Definition exampleGetResponse : edgeos.edgeOSGet :=
  edgeos.mkEdgeOSGet (edgeos.mkGet (edgeos.mkEdgeOSService
    (edgeos.mkEdgeOSDHCPServer exampleSharedNetworks))).

Definition exampleEdgeosJson : edgeos.Json :=
  {| edgeos.decodeLeases := fun body =>
       if bool_decide (body = "leases") then inl exampleLeasesResponse
       else inr "unexpected end of JSON input";
     edgeos.decodeGet := fun body =>
       if bool_decide (body = "get") then inl exampleGetResponse
       else inr "unexpected end of JSON input" |}.

Definition exampleOldLeases :
    list (string * list (string * edgeOSHostsProvider.dhcpServerLease)) :=
  [("LAN", [("10.0.0.1",
             edgeOSHostsProvider.mkDhcpServerLease "2026/01/01 00:00:00" "LAN"
               "aa:bb:cc:dd:ee:ff" "nas");
            ("10.0.0.2",
             edgeOSHostsProvider.mkDhcpServerLease "2026/01/01 00:00:00" "LAN"
               "aa:bb:cc:dd:ee:01" "tv")])].

Definition exampleOldEdgeosJson : edgeOSHostsProvider.Json :=
  {| edgeOSHostsProvider.decodeLeases := fun body =>
       if bool_decide (body = "leases") then inl exampleOldLeases
       else inr "unexpected end of JSON input";
     edgeOSHostsProvider.decodeGet := fun body =>
       if bool_decide (body = "get") then inl exampleSharedNetworks
       else inr "unexpected end of JSON input" |}.

(** ** Lists and decisions *)

Section list_facts.

Context {A : Type}.
Implicit Types (P Q : A -> Prop) (l : list A).

Lemma if_same {B} (b : bool) (x : B) : (if b then x else x) = x.
Proof. by destruct b. Qed.

Lemma bool_decide_if_ext {B} (P Q : Prop) `{!Decision P, !Decision Q} (x y : B) :
  (P <-> Q) ->
  (if bool_decide P then x else y) = (if bool_decide Q then x else y).
Proof. intros HPQ. by rewrite (bool_decide_ext P Q HPQ). Qed.

Lemma Exists_ext P Q l : (forall x, P x <-> Q x) -> Exists P l <-> Exists Q l.
Proof. intros HPQ. rewrite !Exists_exists. naive_solver. Qed.

Lemma Exists_filter P Q `{!forall x, Decision (Q x)} l :
  Exists P (filter Q l) <-> Exists (fun x => Q x /\ P x) l.
Proof.
  rewrite !Exists_exists. setoid_rewrite list_elem_of_filter. naive_solver.
Qed.

Lemma filter_ext_in P Q `{!forall x, Decision (P x), !forall x, Decision (Q x)} l :
  (forall x, x ∈ l -> P x <-> Q x) -> filter P l = filter Q l.
Proof.
  induction l as [|x l IH]; intros Hext; [done|].
  rewrite !filter_cons, IH by (intros y Hy; apply Hext; by right).
  destruct (decide (P x)) as [Hx|Hx].
  - rewrite decide_True; [done|]. apply Hext; [left|done].
  - rewrite decide_False; [done|]. intros HQ. apply Hx, Hext; [left|done].
Qed.

Lemma filter_none P `{!forall x, Decision (P x)} l :
  Forall (fun x => ~ P x) l -> filter P l = [].
Proof.
  induction 1 as [|x l Hx Hl IH]; [done|].
  rewrite filter_cons, decide_False by done. by rewrite IH.
Qed.

Lemma filter_id P `{!forall x, Decision (P x)} l :
  Forall P l -> filter P l = l.
Proof.
  induction 1 as [|x l Hx Hl IH]; [done|].
  rewrite filter_cons, decide_True by done. by rewrite IH.
Qed.

Lemma filter_comm P Q `{!forall x, Decision (P x), !forall x, Decision (Q x)} l :
  filter P (filter Q l) = filter Q (filter P l).
Proof. rewrite !list_filter_filter. apply list_filter_iff. intros x. tauto. Qed.

End list_facts.

(** ** The [hostess] operations *)

Section hostess_facts.

Implicit Types (h hosts : Hostlist) (e x host : Hostname) (domain : string).

Lemma Equal_spec e x : Equal e x = true <-> Domain e = Domain x /\ IP e = IP x.
Proof.
  unfold Equal, net.Equal. rewrite andb_true_iff, !bool_decide_eq_true. done.
Qed.

Lemma Equal_false e x : Equal e x = false <-> ~ (Domain e = Domain x /\ IP e = IP x).
Proof. rewrite <- Equal_spec. destruct (Equal e x); naive_solver. Qed.

Lemma removeFirst_cons_eq e h host :
  Equal e host = true -> removeFirst (e :: h) host = h.
Proof. intros He. unfold removeFirst. simpl. rewrite He. simpl. done. Qed.

Lemma IndexOf_lt h host i : IndexOf h host = Some i -> (i < List.length h)%nat.
Proof.
  revert i. induction h as [|e h IH]; intros i; simpl; [done|].
  destruct (Equal e host); [intros [= <-]; lia|].
  destruct (IndexOf h host) as [j|]; [|done].
  intros [= <-]. specialize (IH j eq_refl). lia.
Qed.

Lemma removeFirst_cons_ne e h host :
  Equal e host = false -> removeFirst (e :: h) host = e :: removeFirst h host.
Proof.
  intros He. unfold removeFirst. simpl. rewrite He.
  destruct (IndexOf h host) as [j|] eqn:Hj; [|done].
  pose proof (IndexOf_lt _ _ _ Hj) as Hlt. simpl.
  rewrite !bool_decide_eq_true_2 by (simpl; lia). done.
Qed.

Lemma Domain_enable e : Domain (enable e) = Domain e.
Proof. done. Qed.

Lemma enable_enabled e : Enabled e = true -> enable e = e.
Proof. destruct e; simpl; intros ->; done. Qed.

Lemma Domain_enableIf domain e : Domain (enableIf domain e) = Domain e.
Proof. unfold enableIf. case_bool_decide; done. Qed.

Lemma IP_enableIf domain e : IP (enableIf domain e) = IP e.
Proof. unfold enableIf. case_bool_decide; done. Qed.

Lemma enableIf_idemp domain e : enableIf domain (enableIf domain e) = enableIf domain e.
Proof.
  unfold enableIf at 2 3. case_bool_decide as Hd; [|unfold enableIf; by rewrite bool_decide_eq_false_2].
  unfold enableIf. rewrite Domain_enable, bool_decide_eq_true_2; done.
Qed.

Lemma enableIf_comm d1 d2 e :
  enableIf d2 (enableIf d1 e) = enableIf d1 (enableIf d2 e).
Proof.
  unfold enableIf at 2 4.
  destruct (decide (Domain e = d1)) as [H1|H1], (decide (Domain e = d2)) as [H2|H2];
    rewrite ?(bool_decide_eq_true_2 _ H1), ?(bool_decide_eq_true_2 _ H2),
      ?(bool_decide_eq_false_2 _ H1), ?(bool_decide_eq_false_2 _ H2);
    unfold enableIf; rewrite ?Domain_enable;
    rewrite ?(bool_decide_eq_true_2 _ H1), ?(bool_decide_eq_true_2 _ H2),
      ?(bool_decide_eq_false_2 _ H1), ?(bool_decide_eq_false_2 _ H2); done.
Qed.

Lemma Equal_enableIf_l domain e host : Equal (enableIf domain e) host = Equal e host.
Proof. unfold Equal. rewrite Domain_enableIf, IP_enableIf. done. Qed.

Lemma Enable_cons e h domain :
  Enable (e :: h) domain = enableIf domain e :: Enable h domain.
Proof. done. Qed.

Lemma Enable_idemp h domain : Enable (Enable h domain) domain = Enable h domain.
Proof.
  induction h as [|e h IH]; [done|].
  rewrite (Enable_cons e h), (Enable_cons (enableIf domain e)), IH, enableIf_idemp. done.
Qed.

Lemma Enable_comm h d1 d2 : Enable (Enable h d1) d2 = Enable (Enable h d2) d1.
Proof.
  induction h as [|e h IH]; [done|].
  rewrite (Enable_cons e h d1), (Enable_cons e h d2), !Enable_cons, IH, enableIf_comm. done.
Qed.

(** [Enable] changes flags only: a test on domain and address commutes with it. *)
Lemma Enable_filter (P : Hostname -> Prop) `{!forall e, Decision (P e)} h domain :
  (forall e, P (enableIf domain e) <-> P e) ->
  filter P (Enable h domain) = Enable (filter P h) domain.
Proof.
  intros HP. induction h as [|e h IH]; [done|].
  rewrite Enable_cons, !filter_cons, IH.
  destruct (decide (P (enableIf domain e))), (decide (P e)); try naive_solver.
Qed.

Lemma removeFirst_Enable h domain host :
  removeFirst (Enable h domain) host = Enable (removeFirst h host) domain.
Proof.
  revert host. induction h as [|e h IH]; intros host; [done|].
  destruct (Equal e host) eqn:He.
  - rewrite (removeFirst_cons_eq e h) by done. rewrite Enable_cons.
    apply removeFirst_cons_eq. by rewrite Equal_enableIf_l.
  - rewrite (removeFirst_cons_ne e h) by done. rewrite !Enable_cons.
    rewrite removeFirst_cons_ne, IH; [done|]. by rewrite Equal_enableIf_l.
Qed.

Lemma elem_of_Enable h domain x :
  x ∈ Enable h domain <->
  exists e, e ∈ h /\ x = enableIf domain e.
Proof. unfold Enable. rewrite list_elem_of_fmap. naive_solver. Qed.

(** Removing, in list order, every entry that satisfies a test on domain and
    address leaves the entries that fail the test. *)
Lemma fold_removeFirst_other (P : Hostname -> Prop) e h l :
  (forall x y, Equal x y = true -> P x -> P y) ->
  ~ P e -> Forall P l ->
  fold_left removeFirst l (e :: h) = e :: fold_left removeFirst l h.
Proof.
  intros HP He Hl. revert h. induction Hl as [|x l Hx Hl IH]; intros h; [done|].
  simpl. rewrite removeFirst_cons_ne; [apply IH|].
  apply Equal_false. intros [Hd Hi]. apply He.
  apply (HP x e); [|done]. apply Equal_spec. done.
Qed.

Lemma fold_removeFirst_filter (P : Hostname -> Prop) `{!forall e, Decision (P e)} h :
  (forall x y, Equal x y = true -> P x -> P y) ->
  fold_left removeFirst (filter P h) h = filter (fun e => ~ P e) h.
Proof.
  intros HP. induction h as [|e h IH]; [done|].
  rewrite !filter_cons. destruct (decide (P e)) as [He|He].
  - rewrite decide_False by naive_solver. simpl.
    rewrite removeFirst_cons_eq; [done|]. apply Equal_spec. done.
  - rewrite decide_True by done.
    rewrite (fold_removeFirst_other P); [by rewrite IH|done|done|].
    apply Forall_forall. intros x Hx. apply list_elem_of_filter in Hx. tauto.
Qed.

Lemma Enable_id h domain :
  Forall (fun e => Domain e = domain -> Enabled e = true) h -> Enable h domain = h.
Proof.
  induction 1 as [|e h He Hh IH]; [done|].
  rewrite Enable_cons, IH. f_equal. unfold enableIf.
  case_bool_decide; [|done]. by apply enable_enabled, He.
Qed.

Lemma Equal_conflicts e x : Equal e x = true -> conflicts x e.
Proof. rewrite Equal_spec. unfold conflicts, IPv6. intros [-> ->]. done. Qed.

Lemma addLoop_cons_other e h x :
  ~ conflicts x e -> addLoop (e :: h) x = e :: addLoop h x.
Proof.
  intros Hc. cbn [addLoop]. destruct (Equal e x) eqn:He.
  - destruct Hc. by apply Equal_conflicts.
  - destruct (decide (Domain e = Domain x)) as [Hd|Hd];
      [|by rewrite (bool_decide_eq_false_2 _ Hd)].
    rewrite (bool_decide_eq_true_2 _ Hd), bool_decide_eq_false_2; [done|].
    intros Hv. apply Hc. done.
Qed.

Lemma addLoop_cons_overwrite e h x :
  conflicts x e -> IP e <> IP x -> addLoop (e :: h) x = x :: h.
Proof.
  intros [Hd Hv] Hip. cbn [addLoop].
  rewrite (proj2 (Equal_false e x)) by tauto.
  by rewrite (bool_decide_eq_true_2 _ Hd), (bool_decide_eq_true_2 _ Hv).
Qed.

(** With no entry of the same domain and IP version, [addLoop] appends. *)
Lemma addLoop_append h x :
  Forall (fun e => ~ conflicts x e) h -> addLoop h x = h ++ [x].
Proof.
  induction 1 as [|e h He Hh IH]; [done|].
  rewrite addLoop_cons_other, IH; done.
Qed.

(** Otherwise the first such entry, when it holds another address, is
    overwritten where it stands. *)
Lemma addLoop_overwrite h1 c h2 x :
  Forall (fun e => ~ conflicts x e) h1 -> conflicts x c -> IP c <> IP x ->
  addLoop (h1 ++ c :: h2) x = h1 ++ x :: h2.
Proof.
  intros Hh1 Hc Hip. induction Hh1 as [|e h1 He Hh1 IH].
  - by apply addLoop_cons_overwrite.
  - cbn [app]. rewrite addLoop_cons_other, IH; done.
Qed.

(** [addLoop] only touches entries with the domain of the new entry. *)
Lemma addLoop_filter (P : Hostname -> Prop) `{!forall e, Decision (P e)} h x :
  (forall e, Domain e = Domain x -> ~ P e) ->
  filter P (addLoop h x) = filter P h.
Proof.
  intros HP. induction h as [|e h IH].
  - cbn [addLoop]. rewrite filter_cons, decide_False; [done|]. by apply HP.
  - cbn [addLoop]. destruct (Equal e x) eqn:He.
    + apply Equal_spec in He as [Hd _].
      rewrite !filter_cons, !decide_False; [done|by apply HP|by apply HP].
    + destruct (decide (Domain e = Domain x)) as [Hd|Hd].
      * rewrite (bool_decide_eq_true_2 _ Hd). cbn [andb].
        case_bool_decide.
        -- rewrite !filter_cons, !decide_False; [done|by apply HP|by apply HP].
        -- rewrite !filter_cons, IH. done.
      * rewrite (bool_decide_eq_false_2 _ Hd). cbn [andb].
        rewrite !filter_cons, IH. done.
Qed.

(** An entry of [addLoop h x], when [x] is enabled, is disabled only if it was
    already there. *)
Lemma addLoop_disabled h x e :
  Enabled x = true -> e ∈ addLoop h x -> Enabled e = false -> e ∈ h.
Proof.
  intros Hx. induction h as [|f h IH]; cbn [addLoop].
  - intros ->%list_elem_of_singleton. congruence.
  - destruct (Equal f x).
    + intros [->|He]%elem_of_cons; [|by right].
      cbn. rewrite Hx, orb_true_r. done.
    + destruct (bool_decide (Domain f = Domain x) && bool_decide (IPv6 f = IPv6 x)).
      * intros [->|He]%elem_of_cons; [congruence|by right].
      * intros [->|He]%elem_of_cons; [by left|]. right. by apply IH.
Qed.

(** An entry of [addLoop h x] with another domain was already there. *)
Lemma addLoop_other_domain h x e :
  e ∈ addLoop h x -> Domain e <> Domain x -> e ∈ h.
Proof.
  induction h as [|f h IH]; cbn [addLoop].
  - intros ->%list_elem_of_singleton. done.
  - destruct (Equal f x) eqn:Hfx.
    + apply Equal_spec in Hfx as [Hd _].
      intros [->|He]%elem_of_cons; [|by right]. cbn. congruence.
    + destruct (bool_decide (Domain f = Domain x) && bool_decide (IPv6 f = IPv6 x)).
      * intros [->|He]%elem_of_cons; [congruence|by right].
      * intros [->|He]%elem_of_cons; [by left|]. right. by apply IH.
Qed.

(** When no entry holds the address of [x], [addLoop h x] holds it exactly once. *)
Lemma addLoop_FilterByIP h x :
  Forall (fun e => IP e <> IP x) h -> FilterByIP (addLoop h x) (IP x) = [x].
Proof.
  unfold FilterByIP. induction 1 as [|e h He Hh IH]; cbn [addLoop].
  - rewrite filter_cons, decide_True; [done|]. by apply bool_decide_eq_true.
  - rewrite (proj2 (Equal_false e x)) by tauto.
    assert (Hrest : filter (fun hostname => net.Equal (IP hostname) (IP x) = true) h = []).
    { apply filter_none, (Forall_impl _ _ _ Hh). intros f Hf Hip.
      apply Hf. by apply bool_decide_eq_true in Hip. }
    destruct (bool_decide (Domain e = Domain x) && bool_decide (IPv6 e = IPv6 x)).
    + rewrite filter_cons, decide_True, Hrest; [done|]. by apply bool_decide_eq_true.
    + rewrite filter_cons, decide_False, IH; [done|].
      intros Hip. apply He. by apply bool_decide_eq_true in Hip.
Qed.

Lemma Enable_enabled h domain :
  Forall (fun e => Domain e = domain -> Enabled e = true) (Enable h domain).
Proof.
  apply Forall_forall. intros x (e & _ & ->)%elem_of_Enable.
  rewrite Domain_enableIf. intros Hd. unfold enableIf.
  by rewrite (bool_decide_eq_true_2 _ Hd).
Qed.

(** An entry of [addLoop h x] is [x] or stands for an entry of [h] with the same
    domain and address. *)
Lemma addLoop_origin h x e :
  e ∈ addLoop h x -> e = x \/ exists e0, e0 ∈ h /\ Domain e0 = Domain e /\ IP e0 = IP e.
Proof.
  induction h as [|f h IH]; cbn [addLoop].
  - intros ->%list_elem_of_singleton. by left.
  - destruct (Equal f x).
    + intros [->|He]%elem_of_cons; right; [exists f|exists e]; split_and!; try done;
        [by left|by right].
    + destruct (bool_decide (Domain f = Domain x) && bool_decide (IPv6 f = IPv6 x)).
      * intros [->|He]%elem_of_cons; [by left|]. right. exists e. split_and!; try done.
        by right.
      * intros [->|He]%elem_of_cons.
        -- right. exists f. split_and!; try done. by left.
        -- destruct (IH He) as [->|(e0 & He0 & Hd & Hi)]; [by left|].
           right. exists e0. split_and!; try done. by right.
Qed.

Lemma conflicts_key x e : conflicts x e <-> key e = key x.
Proof. unfold conflicts, key. split; [intros [-> ->]; done|intros [= -> ->]; done]. Qed.

Lemma key_enableIf domain e : key (enableIf domain e) = key e.
Proof. unfold key, IPv6. by rewrite Domain_enableIf, IP_enableIf. Qed.

Lemma wellFormed_Permutation h h' : h ≡ₚ h' -> wellFormed h -> wellFormed h'.
Proof. unfold wellFormed. intros Hp. by rewrite Hp. Qed.

Lemma wellFormed_filter (P : Hostname -> Prop) `{!forall e, Decision (P e)} h :
  wellFormed h -> wellFormed (filter P h).
Proof.
  unfold wellFormed. intros Hwf.
  eapply sublist_NoDup; [done|]. apply fmap_sublist, sublist_filter.
Qed.

Lemma wellFormed_Enable h domain : wellFormed h -> wellFormed (Enable h domain).
Proof.
  unfold wellFormed, Enable. intros Hwf.
  replace (key <$> map (enableIf domain) h) with (key <$> h); [done|].
  induction h as [|e h IH]; [done|].
  cbn [map]. rewrite !fmap_cons, key_enableIf. f_equal. apply IH.
  rewrite fmap_cons in Hwf. by apply NoDup_cons in Hwf as [_ Hwf].
Qed.

(** On a well-formed list that does not hold the address of [x], [addLoop h x]
    is, up to the order of the entries, [x] in front of the entries with
    another domain or IP version. *)
Lemma addLoop_Permutation h x :
  wellFormed h -> Forall (fun e => IP e <> IP x) h ->
  addLoop h x ≡ₚ x :: filter (fun e => ~ conflicts x e) h.
Proof.
  unfold wellFormed. intros Hwf Hip. induction Hip as [|e h He Hh IH]; [done|].
  rewrite fmap_cons in Hwf. apply NoDup_cons in Hwf as [Hk Hwf].
  destruct (decide (conflicts x e)) as [Hc|Hc].
  - rewrite addLoop_cons_overwrite by done.
    rewrite filter_cons, decide_False by tauto.
    rewrite filter_id; [done|]. apply Forall_forall. intros f Hf Hcf.
    apply Hk. apply conflicts_key in Hc, Hcf. rewrite Hc, <- Hcf.
    apply list_elem_of_fmap. by exists f.
  - rewrite addLoop_cons_other by done.
    rewrite filter_cons, decide_True by done.
    rewrite IH by done. apply perm_swap.
Qed.

(** [Add] with the nil check in front of the loop. *)
Lemma Add_nil h x : IP x = net.Nil -> Add h x = h.
Proof. intros Hx. unfold Add. by rewrite bool_decide_eq_true_2. Qed.

Lemma Add_addLoop h x : IP x <> net.Nil -> Add h x = addLoop h x.
Proof. intros Hx. unfold Add. by rewrite bool_decide_eq_false_2. Qed.

(** With no entry of the same domain and IP version, [Add] appends. *)
Lemma Add_append h x :
  IP x <> net.Nil -> Forall (fun e => ~ conflicts x e) h -> Add h x = h ++ [x].
Proof. intros Hx Hh. rewrite Add_addLoop by done. by apply addLoop_append. Qed.

(** Otherwise the first such entry, when it holds another address, is
    overwritten where it stands. *)
Lemma Add_overwrite h1 c h2 x :
  IP x <> net.Nil ->
  Forall (fun e => ~ conflicts x e) h1 -> conflicts x c -> IP c <> IP x ->
  Add (h1 ++ c :: h2) x = h1 ++ x :: h2.
Proof. intros Hx Hh Hc Hip. rewrite Add_addLoop by done. by apply addLoop_overwrite. Qed.

(** [Add] only touches entries with the domain of the new entry. *)
Lemma Add_filter (P : Hostname -> Prop) `{!forall e, Decision (P e)} h x :
  (forall e, Domain e = Domain x -> ~ P e) ->
  filter P (Add h x) = filter P h.
Proof. intros HP. unfold Add. case_bool_decide; [done|]. by apply addLoop_filter. Qed.

(** An entry of [Add h x], when [x] is enabled, is disabled only if it was
    already there. *)
Lemma Add_disabled h x e :
  Enabled x = true -> e ∈ Add h x -> Enabled e = false -> e ∈ h.
Proof. unfold Add. case_bool_decide; [done|]. apply addLoop_disabled. Qed.

(** An entry of [Add h x] with another domain was already there. *)
Lemma Add_other_domain h x e :
  e ∈ Add h x -> Domain e <> Domain x -> e ∈ h.
Proof. unfold Add. case_bool_decide; [done|]. apply addLoop_other_domain. Qed.

(** When no entry holds the address of [x], [Add h x] holds it exactly once. *)
Lemma Add_FilterByIP h x :
  IP x <> net.Nil ->
  Forall (fun e => IP e <> IP x) h -> FilterByIP (Add h x) (IP x) = [x].
Proof. intros Hx Hh. rewrite Add_addLoop by done. by apply addLoop_FilterByIP. Qed.

(** An entry of [Add h x] is [x], with its address, or stands for an entry
    of [h] with the same domain and address. *)
Lemma Add_origin h x e :
  e ∈ Add h x ->
  (e = x /\ IP x <> net.Nil) \/ exists e0, e0 ∈ h /\ Domain e0 = Domain e /\ IP e0 = IP e.
Proof.
  unfold Add. case_bool_decide as Hx.
  - intros He. right. by exists e.
  - intros [->|He]%addLoop_origin; [by left|by right].
Qed.

(** On a well-formed list that does not hold the address of [x], [Add h x]
    is, up to the order of the entries, [x] in front of the entries with
    another domain or IP version. *)
Lemma Add_Permutation h x :
  IP x <> net.Nil -> wellFormed h -> Forall (fun e => IP e <> IP x) h ->
  Add h x ≡ₚ x :: filter (fun e => ~ conflicts x e) h.
Proof. intros Hx Hwf Hh. rewrite Add_addLoop by done. by apply addLoop_Permutation. Qed.

End hostess_facts.

(** ** What one iteration does *)

Section updateHost_facts.

Context {U : strings.Unicode}.

Implicit Types (h hosts : Hostlist) (e x host : Hostname) (domain name : string)
  (ip : net.IP).

Lemma fold_removeFirst_Enable l h domain :
  fold_left removeFirst l (Enable h domain) = Enable (fold_left removeFirst l h) domain.
Proof.
  revert h. induction l as [|x l IH]; intros h; [done|].
  simpl. rewrite removeFirst_Enable. apply IH.
Qed.

Lemma removeLoop_cons m l h domain f :
  removeLoop (m :: l) h domain f =
  if bool_decide (sameName domain m) then
    removeLoop l (if negb (Enabled m) then Enable h domain else h) domain true
  else removeLoop l (removeFirst h m) domain f.
Proof. done. Qed.

(** The loop removes the entries of the slice with another name, and calls
    [Enable] when the slice has a disabled entry with the name. *)
Lemma removeLoop_spec l h domain f :
  removeLoop l h domain f =
  (let h' := fold_left removeFirst (filter (fun e => ~ sameName domain e) l) h in
   if bool_decide (Exists (fun e => sameName domain e /\ Enabled e = false) l)
   then Enable h' domain else h',
   f || bool_decide (Exists (sameName domain) l)).
Proof.
  revert h f. induction l as [|m l IH]; intros h f.
  - cbn [removeLoop]. rewrite !bool_decide_eq_false_2 by (by intros ?%Exists_nil).
    by rewrite orb_false_r.
  - rewrite removeLoop_cons, filter_cons.
    destruct (decide (sameName domain m)) as [Hm|Hm].
    + rewrite (bool_decide_eq_true_2 _ Hm).
      rewrite decide_False by tauto.
      rewrite IH. cbv zeta.
      rewrite (bool_decide_eq_true_2 (Exists (sameName domain) (m :: l)))
        by (by apply Exists_cons_hd).
      rewrite orb_true_r. f_equal.
      destruct (Enabled m) eqn:Hen; cbn [negb].
      * apply bool_decide_if_ext. rewrite Exists_cons. intuition congruence.
      * rewrite (bool_decide_eq_true_2
                   (Exists (fun e => sameName domain e /\ Enabled e = false) (m :: l)))
          by (apply Exists_cons_hd; done).
        rewrite fold_removeFirst_Enable, Enable_idemp. apply if_same.
    + rewrite (bool_decide_eq_false_2 _ Hm).
      rewrite decide_True by done. rewrite IH. cbv zeta. cbn [fold_left]. f_equal.
      * apply bool_decide_if_ext. rewrite Exists_cons. tauto.
      * f_equal. apply bool_decide_ext. rewrite Exists_cons. tauto.
Qed.

Lemma net_Equal_spec (a b : net.IP) : net.Equal a b = true <-> a = b.
Proof. unfold net.Equal. apply bool_decide_eq_true. Qed.

Lemma ContainsIP_spec h ip : ContainsIP h ip = true <-> Exists (fun e => IP e = ip) h.
Proof.
  unfold ContainsIP, EqualIP. rewrite existsb_exists, Exists_exists.
  split; intros (e & He & Hip); exists e.
  - rewrite <- list_elem_of_In in He. by rewrite net_Equal_spec in Hip.
  - rewrite <- list_elem_of_In. by rewrite net_Equal_spec.
Qed.

Lemma stale_Equal ip domain x y : Equal x y = true -> stale ip domain x -> stale ip domain y.
Proof.
  rewrite Equal_spec. unfold stale, sameName. intros [-> ->]. done.
Qed.

(** [removeHostsThatMatchIPAndNotDomain] in closed form: the stale entries
    are removed, [Enable domain] is applied when an entry with the address
    and the name (up to case) was disabled, and the flag tells whether an
    entry with the address and the name exists. *)
Lemma removeHosts_spec h ip domain :
  removeHostsThatMatchIPAndNotDomain h ip domain =
  (let h' := filter (fun e => ~ stale ip domain e) h in
   if bool_decide (hasDisabledMatch h ip domain) then Enable h' domain else h',
   bool_decide (hasMatch h ip domain)).
Proof.
  unfold removeHostsThatMatchIPAndNotDomain.
  destruct (ContainsIP h ip) eqn:Hc.
  - rewrite removeLoop_spec. cbv zeta. unfold FilterByIP.
    rewrite list_filter_filter.
    rewrite (list_filter_iff
               (fun e => ~ sameName domain e /\ net.Equal (IP e) ip = true)
               (stale ip domain)); last first.
    { intros e. unfold stale. rewrite net_Equal_spec. tauto. }
    rewrite (fold_removeFirst_filter (stale ip domain)) by apply stale_Equal.
    f_equal.
    + apply bool_decide_if_ext. unfold hasDisabledMatch.
      rewrite Exists_filter. apply Exists_ext. intros e.
      rewrite net_Equal_spec. tauto.
    + cbn [orb]. apply bool_decide_ext. unfold hasMatch.
      rewrite Exists_filter. apply Exists_ext. intros e.
      rewrite net_Equal_spec. tauto.
  - assert (Hno : ~ Exists (fun e => IP e = ip) h).
    { rewrite <- ContainsIP_spec, Hc. done. }
    cbv zeta.
    rewrite (bool_decide_eq_false_2 (hasDisabledMatch h ip domain)); last first.
    { intros H. apply Hno. unfold hasDisabledMatch in H.
      eapply Exists_impl; [apply H|]. simpl. tauto. }
    rewrite (bool_decide_eq_false_2 (hasMatch h ip domain)); last first.
    { intros H. apply Hno. eapply Exists_impl; [apply H|]. simpl. tauto. }
    rewrite filter_id; [done|].
    apply Forall_forall. intros e He [Hs _]. apply Hno.
    apply Exists_exists. eauto.
Qed.

(** One iteration in closed form. *)
Lemma updateHost_spec h name ip :
  updateHost h (name, ip) =
  if bool_decide (name = "") then h
  else if bool_decide (hasMatch h ip name) then
    let h' := filter (fun e => ~ stale ip name e) h in
    if bool_decide (hasDisabledMatch h ip name) then Enable h' name else h'
  else Add (filter (fun e => IP e <> ip) h) (newEntry name ip).
Proof.
  unfold updateHost. case_bool_decide as Hn; [done|].
  rewrite removeHosts_spec. cbv zeta.
  case_bool_decide as Hm; [done|].
  rewrite (bool_decide_eq_false_2 (hasDisabledMatch h ip name)); last first.
  { intros H. apply Hm. eapply Exists_impl; [apply H|]. simpl. tauto. }
  fold (newEntry name ip). f_equal.
  apply filter_ext_in. intros e He. unfold stale. split; [|tauto].
  intros H Hip. apply H. split; [done|]. intros Hs. apply Hm.
  apply Exists_exists. eauto.
Qed.

(** An iteration for [(name, ip)] leaves alone the entries that have neither
    the address [ip] nor the domain [name]. *)
Lemma updateHost_filter (P : Hostname -> Prop) `{!forall e, Decision (P e)} h name ip :
  (forall e e', Domain e = Domain e' -> IP e = IP e' -> P e -> P e') ->
  (forall e, P e -> IP e <> ip) ->
  (forall e, P e -> Domain e <> name) ->
  filter P (updateHost h (name, ip)) = filter P h.
Proof.
  intros Hext Hip Hname. rewrite updateHost_spec.
  case_bool_decide; [done|]. case_bool_decide.
  - cbv zeta.
    assert (Hf : filter P (filter (fun e => ~ stale ip name e) h) = filter P h).
    { apply list_filter_filter_l. intros e He [Hs _]. by apply (Hip e). }
    case_bool_decide; [|done].
    rewrite Enable_filter, Hf.
    + apply Enable_id, Forall_forall. intros e [He _]%list_elem_of_filter Hd.
      by destruct (Hname e).
    + intros e. split; apply Hext; by rewrite ?Domain_enableIf, ?IP_enableIf.
  - rewrite Add_filter.
    + apply list_filter_filter_l. intros e He. by apply Hip.
    + intros e Hd He. by apply (Hname e).
Qed.

(** A disabled entry after an iteration was there, disabled, before it. *)
Lemma updateHost_disabled h name ip e :
  e ∈ updateHost h (name, ip) -> Enabled e = false -> e ∈ h.
Proof.
  rewrite updateHost_spec. case_bool_decide; [done|]. case_bool_decide.
  - cbv zeta. case_bool_decide.
    + intros (f & Hf & ->)%elem_of_Enable Hen.
      apply list_elem_of_filter in Hf as [_ Hf].
      unfold enableIf in *. case_bool_decide; [done|done].
    + intros [_ He]%list_elem_of_filter _. done.
  - intros He Hen. apply Add_disabled in He; [|done|done].
    by apply list_elem_of_filter in He as [_ He].
Qed.

(** An entry after an iteration for [(name, ip)] whose domain is not [name]
    was there before it. *)
Lemma updateHost_other_domain h name ip e :
  e ∈ updateHost h (name, ip) -> Domain e <> name -> e ∈ h.
Proof.
  rewrite updateHost_spec. case_bool_decide; [done|]. case_bool_decide.
  - cbv zeta. case_bool_decide.
    + intros (f & Hf & ->)%elem_of_Enable Hd.
      apply list_elem_of_filter in Hf as [_ Hf].
      rewrite Domain_enableIf in Hd.
      unfold enableIf. by rewrite bool_decide_eq_false_2.
    + intros [_ He]%list_elem_of_filter _. done.
  - intros He Hd. apply Add_other_domain in He; [|done].
    by apply list_elem_of_filter in He as [_ He].
Qed.


(** An entry with neither the address [ip] nor the domain [name] stays. *)
Lemma updateHost_keeps h name ip e :
  e ∈ h -> IP e <> ip -> Domain e <> name -> e ∈ updateHost h (name, ip).
Proof.
  intros He Hip Hd.
  pose proof (updateHost_filter (fun x => Domain x = Domain e /\ IP x = IP e) h name ip)
    as Hf.
  assert (Hin : e ∈ filter (fun x => Domain x = Domain e /\ IP x = IP e) h).
  { by apply list_elem_of_filter. }
  rewrite <- Hf in Hin.
  - by apply list_elem_of_filter in Hin as [_ Hin].
  - intros x x' Hxd Hxi. by rewrite Hxd, Hxi.
  - intros x [_ Hx]. by rewrite Hx.
  - intros x [Hx _]. by rewrite Hx.
Qed.

(** An entry after an iteration for [(name, ip)] with another address stands
    for an entry with the same domain and address before it. *)
Lemma updateHost_origin h name ip e :
  e ∈ updateHost h (name, ip) -> IP e <> ip ->
  exists e0, e0 ∈ h /\ Domain e0 = Domain e /\ IP e0 = IP e.
Proof.
  rewrite updateHost_spec. case_bool_decide; [by exists e|]. case_bool_decide.
  - cbv zeta. case_bool_decide.
    + intros (f & Hf & ->)%elem_of_Enable _.
      apply list_elem_of_filter in Hf as [_ Hf]. exists f.
      by rewrite Domain_enableIf, IP_enableIf.
    + intros [_ He]%list_elem_of_filter _. by exists e.
  - intros [[-> _]|(e0 & He0 & Hd & Hi)]%Add_origin Hip; [done|].
    apply list_elem_of_filter in He0 as [_ He0]. by exists e0.
Qed.

Lemma settled_fix h p : settled h p -> updateHost h p = h.
Proof.
  destruct p as [name ip]. intros [Hn|(Hm & Hs & Hd)]; cbn [fst snd] in *.
  - by subst.
  - rewrite updateHost_spec. case_bool_decide; [done|].
    rewrite (bool_decide_eq_true_2 _ Hm). cbv zeta. rewrite filter_id by done.
    case_bool_decide; [|done]. by apply Enable_id, Hd.
Qed.

Lemma updateHost_settles h p : p.2 <> net.Nil -> settled (updateHost h p) p.
Proof.
  destruct p as [name ip]. unfold settled. cbn [fst snd]. intros Hnil.
  destruct (decide (name = "")) as [Hn|Hn]; [by left|right].
  rewrite updateHost_spec, (bool_decide_eq_false_2 _ Hn).
  case_bool_decide as Hm.
  - cbv zeta.
    set (kept := filter (fun e => ~ stale ip name e) h).
    assert (Hkm : hasMatch kept ip name).
    { apply Exists_exists in Hm as (e & He & Hip & Hs). apply Exists_exists.
      exists e. split; [|done]. apply list_elem_of_filter. split; [|done].
      intros [_ Hns]. done. }
    assert (Hks : Forall (fun e => ~ stale ip name e) kept).
    { apply Forall_forall. intros e He. by apply list_elem_of_filter in He as [He _]. }
    case_bool_decide as Hdm.
    + split_and!.
      * apply Exists_exists in Hkm as (e & He & Hip & Hs). apply Exists_exists.
        exists (enableIf name e). split; [apply elem_of_Enable; by exists e|].
        unfold sameName. by rewrite IP_enableIf, Domain_enableIf.
      * apply Forall_forall. intros x (e & He & ->)%elem_of_Enable.
        rewrite Forall_forall in Hks. specialize (Hks e He).
        unfold stale, sameName in *. by rewrite IP_enableIf, Domain_enableIf.
      * intros _. apply Enable_enabled.
    + split_and!; [done|done|].
      intros Hd. destruct Hdm. apply Exists_exists in Hd as (e & He & Hp).
      apply Exists_exists. exists e. split; [|done].
      by apply list_elem_of_filter in He as [_ He].
  - set (kept := filter (fun e => IP e <> ip) h).
    assert (Hf : FilterByIP (Add kept (newEntry name ip)) ip = [newEntry name ip]).
    { apply (Add_FilterByIP kept (newEntry name ip)); [done|]. apply Forall_forall.
      intros e He. by apply list_elem_of_filter in He as [He _]. }
    assert (Hin : forall e, e ∈ Add kept (newEntry name ip) -> IP e = ip ->
                            e = newEntry name ip).
    { intros e He Hip. apply list_elem_of_singleton. rewrite <- Hf.
      apply list_elem_of_filter. split; [|done]. by apply bool_decide_eq_true. }
    split_and!.
    + apply Exists_exists. exists (newEntry name ip). split; [|done].
      assert (H' : newEntry name ip ∈ FilterByIP (Add kept (newEntry name ip)) ip).
      { rewrite Hf. by left. }
      by apply list_elem_of_filter in H' as [_ H'].
    + apply Forall_forall. intros e He [Hip Hs]. apply Hs.
      by rewrite (Hin e He Hip).
    + intros Hd. apply Exists_exists in Hd as (e & He & [Hip _] & Hen).
      by rewrite (Hin e He Hip) in Hen.
Qed.

(** An iteration for another address and another name (up to case) does not
    unsettle a pair. *)
Lemma settled_preserved h p q :
  p.2 <> q.2 -> strings.ToLower p.1 <> strings.ToLower q.1 ->
  settled h p -> settled (updateHost h q) p.
Proof.
  destruct p as [name ip], q as [name' ip']. cbn [fst snd].
  intros Hip Hname [Hn|(Hm & Hs & Hd)]; cbn [fst snd] in *; [by left|right].
  rewrite Forall_forall in Hs.
  split_and!.
  - apply Exists_exists in Hm as (e & He & Hie & Hse). apply Exists_exists.
    exists e. split; [|done]. apply updateHost_keeps; [done|congruence|].
    intros Hde. apply Hname. unfold sameName in Hse. by rewrite <- Hse, Hde.
  - apply Forall_forall. intros e He [Hie Hse].
    destruct (updateHost_origin h name' ip' e He) as (e0 & He0 & Hd0 & Hi0);
      [by rewrite Hie|].
    apply (Hs e0 He0). unfold stale, sameName in *. by rewrite Hd0, Hi0.
  - intros Hdm. apply Exists_exists in Hdm as (e & He & Hpe & Hen).
    assert (Hall : Forall (fun e => Domain e = name -> Enabled e = true) h).
    { apply Hd. apply Exists_exists. exists e. split; [|done].
      by eapply updateHost_disabled. }
    rewrite Forall_forall in Hall. apply Forall_forall. intros f Hf Hdf.
    destruct (Enabled f) eqn:Hfen; [done|].
    rewrite <- Hfen. apply Hall; [|done]. by eapply updateHost_disabled.
Qed.

(** An iteration keeps the list addressed, and a pair on which the loop
    does not act leaves an addressed list as it is. *)
Lemma updateHost_addressed h p : addressed h -> addressed (updateHost h p).
Proof.
  unfold addressed. rewrite !Forall_forall. intros Hh e He Hnil.
  destruct p as [name ip]. revert He. rewrite updateHost_spec.
  case_bool_decide; [by intros He; apply (Hh e)|]. case_bool_decide.
  - cbv zeta. case_bool_decide.
    + intros (f & Hf & ->)%elem_of_Enable. rewrite IP_enableIf in Hnil.
      apply list_elem_of_filter in Hf as [_ Hf]. by apply (Hh f).
    + intros [_ He]%list_elem_of_filter. by apply (Hh e).
  - intros [[-> Hx]|(e0 & He0 & _ & Hi)]%Add_origin; [done|].
    apply list_elem_of_filter in He0 as [_ He0]. apply (Hh e0 He0). congruence.
Qed.

Lemma updateHost_idle h p : addressed h -> ~ acts p -> updateHost h p = h.
Proof.
  unfold addressed, acts. rewrite Forall_forall. intros Hh Hp.
  destruct p as [name ip]. cbn [fst snd] in Hp. rewrite updateHost_spec.
  case_bool_decide as Hn; [done|].
  assert (Hnil : ip = net.Nil).
  { destruct (decide (ip = net.Nil)); [done|tauto]. }
  subst ip. rewrite bool_decide_eq_false_2.
  - rewrite Add_nil by done. apply filter_id, Forall_forall. intros e He. by apply Hh.
  - intros (e & He & Hip & _)%Exists_exists. by apply (Hh e).
Qed.

(** *** The iteration up to the order of the entries *)

Lemma hasMatch_Permutation h h' ip name :
  h ≡ₚ h' -> hasMatch h ip name <-> hasMatch h' ip name.
Proof.
  intros Hp. unfold hasMatch. rewrite !Exists_exists.
  by setoid_rewrite Hp.
Qed.

Lemma hasDisabledMatch_Permutation h h' ip name :
  h ≡ₚ h' -> hasDisabledMatch h ip name <-> hasDisabledMatch h' ip name.
Proof.
  intros Hp. unfold hasDisabledMatch. rewrite !Exists_exists.
  by setoid_rewrite Hp.
Qed.

Lemma Enable_Permutation h h' domain :
  h ≡ₚ h' -> Enable h domain ≡ₚ Enable h' domain.
Proof. apply Permutation_map. Qed.

Lemma updateHostP_Permutation h h' p :
  h ≡ₚ h' -> updateHostP h p ≡ₚ updateHostP h' p.
Proof.
  intros Hp. unfold updateHostP. case_bool_decide; [done|].
  rewrite (bool_decide_ext _ _ (hasMatch_Permutation h h' _ _ Hp)).
  rewrite (bool_decide_ext _ _ (hasDisabledMatch_Permutation h h' _ _ Hp)).
  case_bool_decide.
  - cbv zeta. case_bool_decide.
    + apply Enable_Permutation. by rewrite Hp.
    + by rewrite Hp.
  - by rewrite Hp.
Qed.

Lemma updateHost_updateHostP h p :
  p.2 <> net.Nil -> wellFormed h -> updateHost h p ≡ₚ updateHostP h p.
Proof.
  destruct p as [name ip]. cbn [snd]. intros Hnil Hwf. rewrite updateHost_spec.
  unfold updateHostP. cbn [fst snd].
  case_bool_decide; [done|]. case_bool_decide; [done|].
  rewrite Add_Permutation.
  - by rewrite list_filter_filter.
  - done.
  - by apply wellFormed_filter.
  - apply Forall_forall. intros e He. by apply list_elem_of_filter in He as [He _].
Qed.

Lemma updateHostP_wellFormed h p : wellFormed h -> wellFormed (updateHostP h p).
Proof.
  intros Hwf. unfold updateHostP. case_bool_decide; [done|]. case_bool_decide.
  - cbv zeta. case_bool_decide.
    + by apply wellFormed_Enable, wellFormed_filter.
    + by apply wellFormed_filter.
  - unfold wellFormed. rewrite fmap_cons. apply NoDup_cons. split.
    + intros (e & Hk & He)%list_elem_of_fmap.
      apply list_elem_of_filter in He as [[Hc _] _]. apply Hc.
      by apply conflicts_key.
    + by apply wellFormed_filter.
Qed.

Lemma updateHost_wellFormed h p : wellFormed h -> wellFormed (updateHost h p).
Proof.
  intros Hwf. destruct (decide (p.2 = net.Nil)) as [Hnil|Hnil].
  - destruct p as [name ip]. cbn [snd] in Hnil. rewrite updateHost_spec.
    case_bool_decide; [done|]. case_bool_decide.
    + cbv zeta. case_bool_decide.
      * by apply wellFormed_Enable, wellFormed_filter.
      * by apply wellFormed_filter.
    + rewrite Add_nil by done. by apply wellFormed_filter.
  - eapply wellFormed_Permutation.
    + symmetry. by apply updateHost_updateHostP.
    + by apply updateHostP_wellFormed.
Qed.

(** An entry with another address and another domain is in the table after
    the iteration exactly when it was in it before. *)
Lemma updateHostP_elem_other h name ip e :
  IP e <> ip -> Domain e <> name ->
  e ∈ updateHostP h (name, ip) <-> e ∈ h.
Proof.
  intros Hip Hd. unfold updateHostP. cbn [fst snd].
  assert (Hen : forall f, Domain f = Domain e -> enableIf name f = f).
  { intros f Hf. unfold enableIf. rewrite bool_decide_eq_false_2; [done|congruence]. }
  case_bool_decide; [done|]. case_bool_decide.
  - cbv zeta. case_bool_decide.
    + rewrite elem_of_Enable. split.
      * intros (f & Hf & ->). rewrite Hen by (by rewrite Domain_enableIf).
        by apply list_elem_of_filter in Hf as [_ Hf].
      * intros He. exists e. rewrite Hen by done. split; [|done].
        apply list_elem_of_filter. split; [|done]. by intros [Hs _].
    + rewrite list_elem_of_filter. split; [tauto|]. intros He. split; [|done].
      by intros [Hs _].
  - rewrite elem_of_cons, list_elem_of_filter. split.
    + intros [->|[_ He]]; [done|done].
    + intros He. right. split; [|done]. split; [|done]. by intros [Hc _].
Qed.

Section commute.

Context (name name' : string) (ip ip' : net.IP).
Hypothesis Hip : ip <> ip'.
Hypothesis Hname : strings.ToLower name <> strings.ToLower name'.

Lemma sameName_other e : sameName name' e -> Domain e <> name.
Proof. unfold sameName. intros Hs Hd. apply Hname. by rewrite <- Hs, Hd. Qed.

Lemma hasMatch_updateHostP h :
  hasMatch (updateHostP h (name, ip)) ip' name' <-> hasMatch h ip' name'.
Proof.
  unfold hasMatch. rewrite !Exists_exists.
  split; intros (e & He & Hie & Hs); exists e; (split; [|done]).
  - apply updateHostP_elem_other in He; [done|congruence|by apply sameName_other].
  - apply updateHostP_elem_other; [congruence|by apply sameName_other|done].
Qed.

Lemma hasDisabledMatch_updateHostP h :
  hasDisabledMatch (updateHostP h (name, ip)) ip' name' <-> hasDisabledMatch h ip' name'.
Proof.
  unfold hasDisabledMatch. rewrite !Exists_exists.
  split; intros (e & He & [Hie Hs] & Hen); exists e; (split; [|done]).
  - apply updateHostP_elem_other in He; [done|congruence|by apply sameName_other].
  - apply updateHostP_elem_other; [congruence|by apply sameName_other|done].
Qed.

(** The second of two iterations tests the table the first one started from. *)
Lemma updateHostP_after h :
  updateHostP (updateHostP h (name, ip)) (name', ip') =
  if bool_decide (name' = "") then updateHostP h (name, ip)
  else if bool_decide (hasMatch h ip' name') then
    let h' := filter (fun e => ~ stale ip' name' e) (updateHostP h (name, ip)) in
    if bool_decide (hasDisabledMatch h ip' name') then Enable h' name' else h'
  else newEntry name' ip'
       :: filter (fun e => ~ conflicts (newEntry name' ip') e /\ IP e <> ip')
            (updateHostP h (name, ip)).
Proof.
  unfold updateHostP at 1. cbn [fst snd].
  rewrite (bool_decide_ext _ _ (hasMatch_updateHostP h)).
  by rewrite (bool_decide_ext _ _ (hasDisabledMatch_updateHostP h)).
Qed.

Lemma filter_keep_Enable h :
  filter (fun e => ~ stale ip' name' e) (Enable h name)
  = Enable (filter (fun e => ~ stale ip' name' e) h) name.
Proof.
  apply Enable_filter. intros e. unfold stale, sameName.
  by rewrite Domain_enableIf, IP_enableIf.
Qed.

Lemma filter_other_Enable h :
  filter (fun e => ~ conflicts (newEntry name' ip') e /\ IP e <> ip') (Enable h name)
  = Enable (filter (fun e => ~ conflicts (newEntry name' ip') e /\ IP e <> ip') h) name.
Proof.
  apply Enable_filter. intros e. unfold conflicts, IPv6.
  by rewrite Domain_enableIf, IP_enableIf.
Qed.

Lemma filter_keep_new h :
  filter (fun e => ~ stale ip' name' e) (newEntry name ip :: h)
  = newEntry name ip :: filter (fun e => ~ stale ip' name' e) h.
Proof. rewrite filter_cons, decide_True; [done|]. intros [Hs _]. by apply Hip. Qed.

Lemma filter_other_new h :
  filter (fun e => ~ conflicts (newEntry name' ip') e /\ IP e <> ip') (newEntry name ip :: h)
  = newEntry name ip
    :: filter (fun e => ~ conflicts (newEntry name' ip') e /\ IP e <> ip') h.
Proof.
  rewrite filter_cons, decide_True; [done|]. split; [|done].
  intros [Hd _]. apply Hname. cbn in Hd. by rewrite Hd.
Qed.

Lemma Enable_new h :
  Enable (newEntry name ip :: h) name' = newEntry name ip :: Enable h name'.
Proof. rewrite Enable_cons. f_equal. unfold enableIf. by case_bool_decide. Qed.

End commute.

(** Two iterations for different addresses and names that differ up to case
    commute, up to the order of the entries. *)
Lemma updateHostP_comm h p q :
  p.2 <> q.2 -> strings.ToLower p.1 <> strings.ToLower q.1 ->
  updateHostP (updateHostP h p) q ≡ₚ updateHostP (updateHostP h q) p.
Proof.
  destruct p as [name ip], q as [name' ip']. cbn [fst snd]. intros Hip Hname.
  assert (Hip' : ip' <> ip) by done.
  assert (Hname' : strings.ToLower name' <> strings.ToLower name) by done.
  rewrite (updateHostP_after name name' ip ip' Hip Hname).
  rewrite (updateHostP_after name' name ip' ip Hip' Hname').
  unfold updateHostP. cbn [fst snd]. cbv zeta.
  repeat case_bool_decide;
    rewrite ?(filter_keep_Enable name name' ip'), ?(filter_keep_Enable name' name ip),
      ?(filter_other_Enable name name' ip'), ?(filter_other_Enable name' name ip),
      ?(filter_keep_new name name' ip ip' Hip), ?(filter_keep_new name' name ip' ip Hip'),
      ?(filter_other_new name name' ip ip' Hip Hname),
      ?(filter_other_new name' name ip' ip Hip' Hname'),
      ?(Enable_new name name' ip), ?(Enable_new name' name ip');
    try done.
  all: rewrite filter_comm.
  all: first [done | by rewrite Enable_comm | apply perm_swap].
Qed.

End updateHost_facts.

(** ** The function over pointers computes the function over values *)

Section pointers_facts.

Context {U : strings.Unicode}.

Implicit Types (m : pointers.Memory) (h l : list nat) (domain : string).

Lemma pointers_view_cons m p h : pointers.view m (p :: h) = m p :: pointers.view m h.
Proof. done. Qed.

Lemma pointers_ContainsIP m h ip :
  pointers.ContainsIP m h ip = ContainsIP (pointers.view m h) ip.
Proof.
  unfold pointers.ContainsIP, ContainsIP. induction h as [|p h IH]; [done|].
  rewrite pointers_view_cons. cbn [existsb]. by rewrite IH.
Qed.

Lemma pointers_FilterByIP m h ip :
  pointers.view m (pointers.FilterByIP m h ip) = FilterByIP (pointers.view m h) ip.
Proof.
  unfold pointers.FilterByIP, FilterByIP. induction h as [|p h IH]; [done|].
  rewrite pointers_view_cons, !filter_cons.
  destruct (decide (net.Equal (IP (m p)) ip = true)); [|done].
  by rewrite pointers_view_cons, IH.
Qed.

Lemma pointers_IndexOf m h host :
  pointers.IndexOf m h host = IndexOf (pointers.view m h) host.
Proof.
  induction h as [|p h IH]; [done|].
  rewrite pointers_view_cons. cbn [pointers.IndexOf IndexOf]. by rewrite IH.
Qed.

Lemma pointers_Remove m h index :
  pointers.view m (pointers.Remove h index) = Remove (pointers.view m h) index.
Proof.
  unfold pointers.Remove, Remove, pointers.view. destruct index as [i|]; [|done].
  rewrite length_fmap. case_bool_decide; [|done].
  by rewrite fmap_app, fmap_take, fmap_drop.
Qed.

(** What [Enable] leaves at an address: the value enabled when the list
    holds the address and the domain is the one asked for. *)
Lemma pointers_Enable_lookup h domain m p :
  pointers.Enable h domain m p
  = if bool_decide (p ∈ h) then enableIf domain (m p) else m p.
Proof.
  revert m. induction h as [|q h IH]; intros m; [done|].
  cbn [pointers.Enable]. rewrite IH.
  destruct (decide (Domain (m q) = domain)) as [Hd|Hd].
  - rewrite (bool_decide_eq_true_2 _ Hd). unfold pointers.store.
    destruct (decide (p = q)) as [->|Hpq].
    + rewrite (bool_decide_eq_true_2 (q = q)) by done.
      rewrite (bool_decide_eq_true_2 (q ∈ q :: h)) by (by left).
      assert (He : enableIf domain (enable (m q)) = enable (m q)).
      { unfold enableIf. by rewrite Domain_enable, (bool_decide_eq_true_2 _ Hd). }
      rewrite He, if_same. unfold enableIf. by rewrite (bool_decide_eq_true_2 _ Hd).
    + rewrite (bool_decide_eq_false_2 (p = q)) by done.
      apply bool_decide_if_ext. rewrite elem_of_cons. tauto.
  - rewrite (bool_decide_eq_false_2 _ Hd).
    destruct (decide (p = q)) as [->|Hpq].
    + rewrite (bool_decide_eq_true_2 (q ∈ q :: h)) by (by left).
      assert (He : enableIf domain (m q) = m q).
      { unfold enableIf. by rewrite (bool_decide_eq_false_2 _ Hd). }
      by rewrite He, if_same.
    + apply bool_decide_if_ext. rewrite elem_of_cons. tauto.
Qed.

Lemma pointers_Enable_view h domain m :
  pointers.view (pointers.Enable h domain m) h = Enable (pointers.view m h) domain.
Proof.
  unfold pointers.view, Enable.
  rewrite <- list_fmap_compose. apply list_fmap_ext.
  intros i p Hp. cbn. rewrite pointers_Enable_lookup.
  rewrite bool_decide_eq_true_2; [done|]. by eapply list_elem_of_lookup_2.
Qed.

Lemma Remove_Enable (hosts : Hostlist) domain index :
  Remove (Enable hosts domain) index = Enable (Remove hosts index) domain.
Proof.
  unfold Remove, Enable. destruct index as [i|]; [|done].
  rewrite length_map. case_bool_decide; [|done].
  change (map (enableIf domain)) with (fmap (M:=list) (enableIf domain)).
  by rewrite fmap_app, fmap_take, fmap_drop.
Qed.

Lemma removeLoop_pointers matching m hosts domain f (slice : list Hostname) :
  Forall2 (tracks m hosts domain) matching slice ->
  removeLoop slice (pointers.view m hosts) domain f
  = let '(m', hosts', f') := pointers.removeLoop matching m hosts domain f in
    (pointers.view m' hosts', f').
Proof.
  intros Hall. revert m hosts f slice Hall.
  induction matching as [|p matching IH]; intros m hosts f slice Hall.
  { apply Forall2_nil_inv_l in Hall as ->. done. }
  apply Forall2_cons_inv_l in Hall as (s & slice' & Hps & Hall & ->).
  rewrite removeLoop_cons. cbn [pointers.removeLoop].
  assert (Hdom : Domain (m p) = Domain s).
  { destruct Hps as [->|(-> & _)]; done. }
  rewrite Hdom.
  destruct (decide (sameName domain s)) as [Hsame|Hsame];
    [rewrite (bool_decide_eq_true_2 (sameName domain s) Hsame),
       (bool_decide_eq_true_2 (strings.ToLower (Domain s) = strings.ToLower domain) Hsame)
    |rewrite (bool_decide_eq_false_2 (sameName domain s) Hsame),
       (bool_decide_eq_false_2 (strings.ToLower (Domain s) = strings.ToLower domain) Hsame)].
  - destruct (Enabled (m p)) eqn:Hen; cbn [negb].
    + assert (Hsame_hosts :
          (if negb (Enabled s) then Enable (pointers.view m hosts) domain
           else pointers.view m hosts) = pointers.view m hosts).
      { destruct Hps as [<-|(_ & _ & Hclosed)]; [by rewrite Hen|].
        rewrite Hclosed. apply if_same. }
      rewrite Hsame_hosts. by apply IH.
    + assert (Hs : m p = s).
      { destruct Hps as [Hs|(Hs & _)]; [done|]. rewrite Hs in Hen. done. }
      rewrite <- Hs, Hen. cbn [negb].
      rewrite <- pointers_Enable_view. apply IH.
      eapply Forall2_impl; [apply Hall|].
      intros q t Hqt. unfold tracks.
      assert (Hclosed : Enable (pointers.view (pointers.Enable hosts domain m) hosts) domain
                        = pointers.view (pointers.Enable hosts domain m) hosts).
      { by rewrite pointers_Enable_view, Enable_idemp. }
      rewrite pointers_Enable_lookup.
      destruct Hqt as [Hq|(Hq & Hd & _)].
      * rewrite Hq. case_bool_decide; [|by left]. unfold enableIf.
        case_bool_decide; [right; done|by left].
      * right. split_and!; [|done|done]. rewrite Hq.
        case_bool_decide; [|done]. unfold enableIf. rewrite Domain_enable.
        rewrite (bool_decide_eq_true_2 _ Hd). by destruct s.
  - assert (Hs : m p = s).
    { destruct Hps as [Hs|(_ & Hd & _)]; [done|]. destruct Hsame.
      unfold sameName. by rewrite Hd. }
    rewrite Hs, pointers_IndexOf. fold (removeFirst (pointers.view m hosts) s).
    unfold removeFirst. rewrite <- pointers_Remove. apply IH.
    eapply Forall2_impl; [apply Hall|].
    intros q t [Hq|(Hq & Hd & Hclosed)]; [by left|right].
    split_and!; [done|done|].
    by rewrite pointers_Remove, <- Remove_Enable, Hclosed.
Qed.

End pointers_facts.

(** ** The whole loop *)

Section reconcile_facts.

Context {U : strings.Unicode}.

Implicit Types (h hosts : Hostlist) (e : Hostname) (mapping : Mapping).

Lemma reconcile_cons h p mapping :
  reconcile h (p :: mapping) = reconcile (updateHost h p) mapping.
Proof. done. Qed.

Lemma reconcile_app h m1 m2 :
  reconcile h (m1 ++ m2) = reconcile (reconcile h m1) m2.
Proof. apply fold_left_app. Qed.

(** A property kept by every iteration holds at the end of the loop. *)
Lemma reconcile_ind (I : Hostlist -> Prop) h mapping :
  I h ->
  (forall h' p, p ∈ mapping -> I h' -> I (updateHost h' p)) ->
  I (reconcile h mapping).
Proof.
  revert h. induction mapping as [|p mapping IH]; intros h Hh Hstep; [done|].
  rewrite reconcile_cons. apply IH.
  - apply Hstep; [left|done].
  - intros h' q Hq. apply Hstep. by right.
Qed.

Lemma elem_of_names name ip mapping : (name, ip) ∈ mapping -> name ∈ names mapping.
Proof. intros H. unfold names. apply list_elem_of_fmap. by exists (name, ip). Qed.

Lemma elem_of_addresses name ip mapping : (name, ip) ∈ mapping -> ip ∈ addresses mapping.
Proof. intros H. unfold addresses. apply list_elem_of_fmap. by exists (name, ip). Qed.

Lemma elem_of_lowerNames name ip mapping :
  (name, ip) ∈ mapping -> strings.ToLower name ∈ lowerNames mapping.
Proof.
  intros H. unfold lowerNames. apply list_elem_of_fmap. exists name.
  split; [done|]. by eapply elem_of_names.
Qed.

(** An iteration for another address brings no entry to an address. *)
Lemma updateHost_no_new_match h q ip name :
  q.1 = "" \/ q.2 <> ip ->
  ~ hasMatch h ip name -> ~ hasMatch (updateHost h q) ip name.
Proof.
  destruct q as [name' ip']. cbn [fst snd]. intros [->|Hip] Hm; [done|].
  intros (e & He & Hie & Hs)%Exists_exists. apply Hm.
  destruct (updateHost_origin h name' ip' e He) as (e0 & He0 & Hd & Hi); [congruence|].
  apply Exists_exists. exists e0. split; [done|]. unfold sameName in *.
  by rewrite Hd, Hi.
Qed.

Lemma reconcile_no_new_match h mapping ip name :
  Forall (fun q => q.1 <> "" -> q.2 <> ip) mapping ->
  ~ hasMatch h ip name -> ~ hasMatch (reconcile h mapping) ip name.
Proof.
  rewrite Forall_forall. intros Hq Hm.
  apply (reconcile_ind (fun h' => ~ hasMatch h' ip name)); [done|].
  intros h' q Hin. apply updateHost_no_new_match.
  destruct (decide (q.1 = "")); [by left|right]. by apply Hq.
Qed.

(** An address held by the new entry of a pair alone stays so through an
    iteration for another address and another name. *)
Lemma updateHost_keeps_new h q name ip :
  q.1 = "" \/ (q.2 <> ip /\ q.1 <> name) ->
  FilterByIP h ip = [newEntry name ip] ->
  FilterByIP (updateHost h q) ip = [newEntry name ip].
Proof.
  destruct q as [name' ip']. cbn [fst snd]. intros [->|[Hip Hname]] Hf; [done|].
  assert (HA : forall h', (forall e, e ∈ h' -> IP e = ip -> Domain e = name) ->
             FilterByIP h' ip = filter (fun e => Domain e = name /\ IP e = ip) h').
  { intros h' Hh'. unfold FilterByIP. apply filter_ext_in. intros e He.
    rewrite net_Equal_spec. split; [|tauto]. intros Hi. split; [|done]. by apply Hh'. }
  assert (HB : forall e, e ∈ h -> IP e = ip -> Domain e = name).
  { intros e He Hi.
    assert (Hin : e ∈ FilterByIP h ip).
    { apply list_elem_of_filter. split; [|done]. by apply net_Equal_spec. }
    rewrite Hf in Hin. by apply list_elem_of_singleton in Hin as ->. }
  rewrite HA.
  - rewrite updateHost_filter; [by rewrite <- HA| | |].
    + intros e e' Hd Hi. by rewrite Hd, Hi.
    + intros e [_ Hi]. congruence.
    + intros e [Hd _]. congruence.
  - intros e He Hi.
    destruct (updateHost_origin h name' ip' e He) as (e0 & He0 & Hd & Hi0); [congruence|].
    rewrite <- Hd. apply HB; [done|congruence].
Qed.

(** So it does through an iteration for the nil address, which removes and
    adds nothing at another address and enables enabled entries at most. *)
Lemma updateHost_nil_keeps_new h name' name ip :
  ip <> net.Nil ->
  FilterByIP h ip = [newEntry name ip] ->
  FilterByIP (updateHost h (name', net.Nil)) ip = [newEntry name ip].
Proof.
  intros Hnil Hf.
  assert (HA : forall (Q : Hostname -> Prop) `{!forall e, Decision (Q e)},
             (forall e, IP e = ip -> Q e) ->
             FilterByIP (filter Q h) ip = FilterByIP h ip).
  { intros Q ? HQ. unfold FilterByIP. apply list_filter_filter_l.
    intros e Hi%net_Equal_spec. by apply HQ. }
  rewrite updateHost_spec. case_bool_decide as Hn; [done|]. case_bool_decide as Hm.
  - cbv zeta.
    assert (Hkept : FilterByIP (filter (fun e => ~ stale net.Nil name' e) h) ip
                    = [newEntry name ip]).
    { rewrite HA; [done|]. intros e Hi [Hs _]. congruence. }
    case_bool_decide; [|done].
    unfold FilterByIP in *. rewrite Enable_filter, Hkept.
    + cbn. unfold enableIf. by case_bool_decide.
    + intros e. by rewrite IP_enableIf.
  - rewrite Add_nil by done. rewrite HA; [done|]. intros e Hi. congruence.
Qed.

Lemma reconcile_keeps_new h mapping name ip :
  ip <> net.Nil ->
  Forall (fun q => q.1 <> "" -> q.2 <> ip) mapping ->
  Forall (fun q => acts q -> q.1 <> name) mapping ->
  FilterByIP h ip = [newEntry name ip] ->
  FilterByIP (reconcile h mapping) ip = [newEntry name ip].
Proof.
  rewrite !Forall_forall. intros Hnil Hq Hn Hf.
  apply (reconcile_ind (fun h' => FilterByIP h' ip = [newEntry name ip])); [done|].
  intros h' [name' ip'] Hin Hh'.
  destruct (decide (ip' = net.Nil)) as [->|Hip']; [by apply updateHost_nil_keeps_new|].
  apply updateHost_keeps_new; [|done]. cbn [fst snd].
  destruct (decide (name' = "")) as [Hname'|Hname']; [by left|right].
  split; [by apply (Hq _ Hin)|by apply (Hn _ Hin)].
Qed.

Lemma reconcile_fix h mapping :
  (forall p, p ∈ mapping -> updateHost h p = h) -> reconcile h mapping = h.
Proof.
  intros H. apply (reconcile_ind (fun h' => h' = h)); [done|].
  intros h' p Hp ->. by apply H.
Qed.

(** With pairwise distinct addresses and names pairwise distinct up to case,
    every pair of the mapping is settled when the loop ends. *)
Lemma reconcile_settled h mapping p :
  Forall acts mapping ->
  NoDup (addresses mapping) -> NoDup (lowerNames mapping) ->
  p ∈ mapping -> settled (reconcile h mapping) p.
Proof.
  revert h. induction mapping as [|q mapping IH]; intros h Hacts Ha Hn Hp.
  { by apply elem_of_nil in Hp. }
  apply Forall_cons in Hacts as [[_ Hq] Hacts].
  unfold addresses in Ha. unfold lowerNames, names in Hn.
  rewrite fmap_cons in Ha. rewrite !fmap_cons in Hn.
  apply NoDup_cons in Ha as [Hqa Ha]. apply NoDup_cons in Hn as [Hqn Hn].
  rewrite reconcile_cons.
  apply elem_of_cons in Hp as [->|Hp]; [|by apply IH].
  apply (reconcile_ind (fun h' => settled h' q)); [by apply updateHost_settles|].
  intros h' [name ip] Hr Hs. apply settled_preserved; [| |done]; cbn [fst snd].
  - intros Heq. apply Hqa. rewrite Heq. by eapply elem_of_addresses.
  - intros Heq. apply Hqn. rewrite Heq. by eapply elem_of_lowerNames.
Qed.

Lemma reconcileP_Permutation h h' mapping :
  h ≡ₚ h' -> reconcileP h mapping ≡ₚ reconcileP h' mapping.
Proof.
  revert h h'. induction mapping as [|p mapping IH]; intros h h' Hp; [done|].
  cbn [reconcileP fold_left]. apply IH. by apply updateHostP_Permutation.
Qed.

Lemma reconcile_reconcileP h mapping :
  Forall acts mapping -> wellFormed h -> reconcile h mapping ≡ₚ reconcileP h mapping.
Proof.
  revert h. induction mapping as [|p mapping IH]; intros h Hacts Hwf; [done|].
  apply Forall_cons in Hacts as [[_ Hp] Hacts].
  rewrite reconcile_cons. rewrite IH by (done || by apply updateHost_wellFormed).
  cbn [reconcileP fold_left]. apply reconcileP_Permutation.
  by apply updateHost_updateHostP.
Qed.

(** The loop keeps the list addressed, and on an addressed list it is the
    loop over the pairs on which it acts. *)
Lemma reconcile_addressed h mapping : addressed h -> addressed (reconcile h mapping).
Proof.
  intros Hh. apply (reconcile_ind addressed); [done|].
  intros h' p _. apply updateHost_addressed.
Qed.

Lemma reconcile_acts h mapping :
  addressed h -> reconcile h mapping = reconcile h (filter acts mapping).
Proof.
  revert h. induction mapping as [|p mapping IH]; intros h Hh; [done|].
  rewrite filter_cons, reconcile_cons. destruct (decide (acts p)) as [Hp|Hp].
  - rewrite reconcile_cons. by apply IH, updateHost_addressed.
  - rewrite updateHost_idle by done. by apply IH.
Qed.

Lemma acts_filter mapping : Forall acts (filter acts mapping).
Proof. apply Forall_forall. intros p Hp. by apply list_elem_of_filter in Hp as [Hp _]. Qed.

Lemma reconcileP_mapping_Permutation m1 m2 :
  m1 ≡ₚ m2 -> NoDup (addresses m1) -> NoDup (lowerNames m1) ->
  forall h, reconcileP h m1 ≡ₚ reconcileP h m2.
Proof.
  induction 1 as [|p m1 m2 Hp IH|p q m|m1 m2 m3 Hp1 IH1 Hp2 IH2]; intros Ha Hn h.
  - done.
  - unfold addresses in Ha. unfold lowerNames, names in Hn.
    rewrite fmap_cons in Ha. rewrite !fmap_cons in Hn.
    apply NoDup_cons in Ha as [_ Ha]. apply NoDup_cons in Hn as [_ Hn].
    cbn [reconcileP fold_left]. by apply IH.
  - unfold addresses in Ha. unfold lowerNames, names in Hn.
    rewrite !fmap_cons in Ha. rewrite !fmap_cons in Hn.
    apply NoDup_cons in Ha as [Ha _]. apply NoDup_cons in Hn as [Hn _].
    cbn [reconcileP fold_left]. apply reconcileP_Permutation.
    apply updateHostP_comm.
    + intros Heq. apply Ha. rewrite Heq. by left.
    + intros Heq. apply Hn. rewrite Heq. by left.
  - rewrite IH1 by done. apply IH2.
    + unfold addresses in *. by rewrite <- Hp1.
    + unfold lowerNames, names in *. by rewrite <- Hp1.
Qed.

End reconcile_facts.

Section pipeline_facts.

Lemma append_assoc (s1 s2 s3 : string) : (s1 +:+ s2) +:+ s3 = s1 +:+ s2 +:+ s3.
Proof.
  induction s1 as [|c s1 IH]; [done|].
  change (String c (String.append (String.append s1 s2) s3)
          = String c (String.append s1 (String.append s2 s3))).
  by rewrite IH.
Qed.

Lemma append_nil_r (s : string) : s +:+ "" = s.
Proof.
  induction s as [|c s IH]; [done|].
  change (String c (String.append s "") = String c s). by rewrite IH.
Qed.

Lemma concat_cons_cons sep (x y : string) (l : list string) :
  String.concat sep (x :: y :: l) = x +:+ sep +:+ String.concat sep (y :: l).
Proof. done. Qed.

(** Every message of the list occurs in the joined string. *)
Lemma concat_occurs sep (errs : list string) (err : string) :
  err ∈ errs -> exists pre post, String.concat sep errs = pre +:+ err +:+ post.
Proof.
  induction errs as [|x [|y l] IH].
  - by intros ?%elem_of_nil.
  - intros ->%list_elem_of_singleton. exists "", "". cbn [String.concat].
    by rewrite append_nil_r.
  - rewrite concat_cons_cons. intros [->|Hin]%elem_of_cons.
    + by exists "", (sep +:+ String.concat sep (y :: l)).
    + destruct (IH Hin) as (pre & post & ->).
      exists (x +:+ sep +:+ pre), post. by rewrite !append_assoc.
Qed.

Lemma parseErrorsError_occurs (errs : list error) (err : error) :
  err ∈ errs -> exists pre post, parseErrorsError errs = pre +:+ err +:+ post.
Proof.
  intros (pre & post & Hc)%(concat_occurs " "). unfold parseErrorsError, formatErrors.
  rewrite Hc. exists ("multiple errors parsing hosts file! " +:+ "[" +:+ pre), (post +:+ "]").
  by rewrite !append_assoc.
Qed.

(** Registering providers does not touch the other identifiers. *)
Lemma servers_WithServer_other (u : host.Updater) (providers : list host.ServerProvider)
    (server : string) :
  server ∉ host.ID <$> providers ->
  host.servers (foldl host.WithServer u providers) !! server = host.servers u !! server.
Proof.
  revert u. induction providers as [|provider providers IH]; intros u Hs; [done|].
  rewrite fmap_cons in Hs. apply not_elem_of_cons in Hs as [Hne Hs].
  cbn [foldl]. rewrite IH by done. unfold host.WithServer. cbn [host.servers].
  by rewrite lookup_insert_ne.
Qed.

End pipeline_facts.

(** ** Strings *)

Section strings_facts.

Implicit Types (s a b : string) (c sep : ascii).

Lemma append_cons c s b : String c s +:+ b = String c (s +:+ b).
Proof. done. Qed.

Lemma Contains_count s c : strings.Contains s c = false <-> countByte s c = 0%nat.
Proof.
  induction s as [|c' s IH]; [done|]. cbn [strings.Contains countByte].
  case_bool_decide; cbn [orb]; [split; [done|lia]|]. by rewrite IH.
Qed.

Lemma countByte_app a b c : countByte (a +:+ b) c = (countByte a c + countByte b c)%nat.
Proof.
  induction a as [|c' a IH]; [done|]. rewrite append_cons. cbn [countByte].
  rewrite IH. lia.
Qed.

Lemma Split_not_nil s sep : strings.Split s sep <> [].
Proof.
  destruct s as [|c s]; [done|]. cbn [strings.Split].
  case_bool_decide; [done|]. by destruct (strings.Split s sep).
Qed.

(** [Split] returns one part more than there are separators. *)
Lemma Split_length s sep :
  List.length (strings.Split s sep) = S (countByte s sep).
Proof.
  induction s as [|c s IH]; [done|]. cbn [strings.Split countByte].
  case_bool_decide; [cbn; by rewrite IH|].
  destruct (strings.Split s sep) eqn:Hs; [by destruct (Split_not_nil s sep)|].
  cbn in *. lia.
Qed.

Lemma Split_no_sep s sep : strings.Contains s sep = false -> strings.Split s sep = [s].
Proof.
  induction s as [|c s IH]; [done|]. cbn [strings.Contains strings.Split].
  case_bool_decide; [done|]. cbn [orb]. intros Hs. by rewrite IH.
Qed.

Lemma Split_app_sep a b sep :
  strings.Contains a sep = false ->
  strings.Split (a +:+ String sep b) sep = a :: strings.Split b sep.
Proof.
  induction a as [|c a IH].
  - intros _. change ("" +:+ String sep b) with (String sep b).
    cbn [strings.Split]. by rewrite bool_decide_eq_true_2.
  - cbn [strings.Contains]. rewrite append_cons. cbn [strings.Split].
    case_bool_decide; [done|]. cbn [orb]. intros Ha. by rewrite IH.
Qed.

(** The parts, joined by the separator, are the string; no part holds the
    separator. *)
Lemma Split_join s sep :
  String.concat (String sep "") (strings.Split s sep) = s.
Proof.
  induction s as [|c s IH]; [done|]. cbn [strings.Split].
  case_bool_decide as Hc.
  - subst c. destruct (strings.Split s sep) as [|p ps] eqn:Hs;
      [by destruct (Split_not_nil s sep)|].
    rewrite concat_cons_cons, IH. done.
  - destruct (strings.Split s sep) as [|p [|q ps]] eqn:Hs;
      [by destruct (Split_not_nil s sep)|..].
    + cbn in *. by rewrite IH.
    + rewrite concat_cons_cons in *. rewrite append_cons. by rewrite IH.
Qed.

Lemma Split_parts s sep :
  Forall (fun part => strings.Contains part sep = false) (strings.Split s sep).
Proof.
  induction s as [|c s IH]; [by repeat constructor|]. cbn [strings.Split].
  case_bool_decide as Hc; [by constructor|].
  destruct (strings.Split s sep) as [|p ps] eqn:Hs; [by destruct (Split_not_nil s sep)|].
  apply Forall_cons in IH as [Hp Hps]. constructor; [|done].
  cbn [strings.Contains]. by rewrite bool_decide_eq_false_2.
Qed.

(** Two parts: the string is the first part, the separator and the second
    part, and the separator occurs once. *)
Lemma Split_two s sep p0 p1 :
  strings.Split s sep = [p0; p1] <->
  s = p0 +:+ String sep p1 /\ strings.Contains p0 sep = false
  /\ strings.Contains p1 sep = false.
Proof.
  split.
  - intros Hs. pose proof (Split_join s sep) as Hj. pose proof (Split_parts s sep) as Hp.
    rewrite Hs in Hj, Hp. apply Forall_cons in Hp as [Hp0 Hp].
    apply Forall_cons in Hp as [Hp1 _]. by rewrite <- Hj.
  - intros (-> & H0 & H1). by rewrite Split_app_sep, Split_no_sep.
Qed.

Lemma ReplaceAll_id s c new : strings.Contains s c = false -> strings.ReplaceAll s c new = s.
Proof.
  induction s as [|c' s IH]; [done|]. cbn [strings.Contains strings.ReplaceAll].
  case_bool_decide; [done|]. cbn [orb]. intros Hs. by rewrite IH.
Qed.

Lemma Contains_app a b c :
  strings.Contains (a +:+ b) c = strings.Contains a c || strings.Contains b c.
Proof.
  induction a as [|c' a IH]; [done|]. rewrite append_cons. cbn [strings.Contains].
  by rewrite IH, orb_assoc.
Qed.

(** After [ReplaceAll] the old byte is gone, when the new string does not
    bring it back. *)
Lemma ReplaceAll_Contains s c new :
  strings.Contains new c = false ->
  strings.Contains (strings.ReplaceAll s c new) c = false.
Proof.
  intros Hnew. induction s as [|c' s IH]; [done|]. cbn [strings.ReplaceAll].
  case_bool_decide as Hc.
  - by rewrite Contains_app, Hnew, IH.
  - cbn [strings.Contains]. by rewrite bool_decide_eq_false_2, IH.
Qed.

Lemma lower_byte_idemp c : strings.lower_byte (strings.lower_byte c) = strings.lower_byte c.
Proof.
  destruct c as [[] [] [] [] [] [] [] []]; vm_compute; reflexivity.
Qed.

Lemma lowerASCII_idemp s : strings.lowerASCII (strings.lowerASCII s) = strings.lowerASCII s.
Proof.
  induction s as [|c s IH]; [done|]. cbn [strings.lowerASCII].
  by rewrite lower_byte_idemp, IH.
Qed.

(** On an ASCII string [ToLower] does not consult the case tables. *)
Lemma ToLower_ASCII `{!strings.Unicode} s :
  strings.isASCII s = true -> strings.ToLower s = strings.lowerASCII s.
Proof. unfold strings.ToLower. by intros ->. Qed.

End strings_facts.

(** ** Loops that write a map *)

Section insert_loops.

Context {A V : Type} (key : A -> string) (val : A -> V).

Implicit Types (l : list A) (m : gmap string V) (k : string).

(** A loop of assignments [m[key x] = val x] leaves the map of the pairs,
    later ones first, over the map it started from. *)
Lemma foldl_insert_closed l m :
  foldl (fun m x => <[key x := val x]> m) m l
  = list_to_map (reverse ((fun x => (key x, val x)) <$> l)) ∪ m.
Proof.
  induction l as [|x l IH] using rev_ind.
  - cbn. by rewrite (left_id_L ∅ (∪)).
  - rewrite foldl_app. cbn [foldl]. rewrite IH, fmap_app, reverse_app.
    cbn [fmap list_fmap]. rewrite reverse_singleton. cbn [app].
    rewrite list_to_map_cons.
    by rewrite insert_union_l.
Qed.

Lemma foldl_insert_notin l m k :
  k ∉ key <$> l -> foldl (fun m x => <[key x := val x]> m) m l !! k = m !! k.
Proof.
  revert m. induction l as [|x l IH]; intros m Hk; [done|].
  rewrite fmap_cons, not_elem_of_cons in Hk. destruct Hk as [Hx Hl].
  cbn [foldl]. rewrite IH by done. by rewrite lookup_insert_ne.
Qed.

Lemma foldl_insert_last before x after m :
  key x ∉ key <$> after ->
  foldl (fun m x => <[key x := val x]> m) m (before ++ x :: after) !! key x
  = Some (val x).
Proof.
  intros Hx. rewrite foldl_app. cbn [foldl]. rewrite foldl_insert_notin by done.
  by rewrite lookup_insert_eq.
Qed.

Lemma foldl_insert_in l m k :
  k ∈ key <$> l ->
  exists x, x ∈ l /\ key x = k
            /\ foldl (fun m x => <[key x := val x]> m) m l !! k = Some (val x).
Proof.
  induction l as [|x l IH] using rev_ind; [by intros ?%elem_of_nil|].
  rewrite fmap_app, elem_of_app, foldl_app. cbn [foldl fmap list_fmap].
  intros Hk. destruct (decide (key x = k)) as [<-|Hne].
  - exists x. rewrite elem_of_app, list_elem_of_singleton, lookup_insert_eq. auto.
  - destruct Hk as [Hk|Hk%list_elem_of_singleton]; [|congruence].
    destruct (IH Hk) as (y & Hy & Hky & Hl). exists y.
    rewrite elem_of_app, lookup_insert_ne by done. auto.
Qed.

(** With distinct keys the order of the assignments does not matter. *)
Lemma foldl_insert_perm l l' m :
  l ≡ₚ l' -> NoDup (key <$> l) ->
  foldl (fun m x => <[key x := val x]> m) m l
  = foldl (fun m x => <[key x := val x]> m) m l'.
Proof.
  intros Hp Hn. rewrite !foldl_insert_closed. f_equal.
  apply list_to_map_proper.
  - rewrite fmap_reverse, reverse_Permutation, <- list_fmap_compose. exact Hn.
  - by rewrite !reverse_Permutation, Hp.
Qed.

End insert_loops.

(** A loop over the lists of a list is a loop over their concatenation. *)
Lemma foldl_concat {A B : Type} (f : B -> A -> B) (b : B) (ls : list (list A)) :
  foldl (fun b l => foldl f b l) b ls = foldl f b (List.concat ls).
Proof.
  revert b. induction ls as [|l ls IH]; intros b; [done|].
  cbn [foldl List.concat]. by rewrite foldl_app, IH.
Qed.

(** ** The overrides and the renaming loop *)

Section overrides_facts.

Context {U : strings.Unicode} `{!GoLibrary}.

Implicit Types (pairs : list (string * string)) (m : gmap string string)
  (overrides : list string) (host : main.Host).

Lemma one_sep_Split (o : string) :
  countByte o "="%char = 1%nat <-> exists p0 p1, strings.Split o "="%char = [p0; p1].
Proof.
  split.
  - intros Hc. pose proof (Split_length o "="%char) as Hl. rewrite Hc in Hl.
    destruct (strings.Split o "=") as [|p0 [|p1 [|p2 ps]]]; try done. by exists p0, p1.
  - intros (p0 & p1 & Hs). pose proof (Split_length o "="%char) as Hl.
    rewrite Hs in Hl. cbn in Hl. lia.
Qed.

Lemma one_sep_overrideFlag (o : string) :
  countByte o "="%char = 1%nat <-> exists p, plainPair p /\ o = overrideFlag p.
Proof.
  rewrite one_sep_Split. split.
  - intros (p0 & p1 & (-> & H0 & H1)%Split_two). by exists (p0, p1).
  - intros ([p0 p1] & [H0 H1] & ->). exists p0, p1. by apply Split_two.
Qed.

Lemma parseMacOverridesFrom_cons_ok o p0 p1 overrides m :
  strings.Split o "="%char = [p0; p1] ->
  main.parseMacOverridesFrom (o :: overrides) m
  = main.parseMacOverridesFrom overrides (<[strings.ToLower p0 := p1]> m).
Proof. intros Hs. cbn [main.parseMacOverridesFrom]. by rewrite Hs. Qed.

Lemma parseMacOverridesFrom_cons_bad o overrides m :
  countByte o "="%char <> 1%nat ->
  main.parseMacOverridesFrom (o :: overrides) m = inr (overrideError o).
Proof.
  intros Hc. cbn [main.parseMacOverridesFrom].
  destruct (strings.Split o "=") as [|p0 [|p1 [|p2 ps]]] eqn:Hs; try done.
  destruct Hc. apply one_sep_Split. eauto.
Qed.

Lemma parseMacOverridesFrom_pairs pairs m :
  Forall plainPair pairs ->
  main.parseMacOverridesFrom (overrideFlag <$> pairs) m
  = inl (foldl (fun m p => <[strings.ToLower p.1 := p.2]> m) m pairs).
Proof.
  intros Hp. revert m. induction Hp as [|[p0 p1] pairs [H0 H1] _ IH]; intros m; [done|].
  rewrite fmap_cons. erewrite parseMacOverridesFrom_cons_ok; [apply IH|].
  by apply Split_two.
Qed.

Lemma parseMacOverridesFrom_first_bad good bad rest m :
  Forall (fun o => countByte o "="%char = 1%nat) good ->
  countByte bad "="%char <> 1%nat ->
  main.parseMacOverridesFrom (good ++ bad :: rest) m = inr (overrideError bad).
Proof.
  intros Hg Hb. revert m. induction Hg as [|o good Ho _ IH]; intros m.
  - by apply parseMacOverridesFrom_cons_bad.
  - apply one_sep_Split in Ho as (p0 & p1 & Hs).
    rewrite <- app_comm_cons. by erewrite parseMacOverridesFrom_cons_ok.
Qed.

Lemma parseMacOverridesFrom_ok_iff overrides m :
  (exists m', main.parseMacOverridesFrom overrides m = inl m')
  <-> Forall (fun o => countByte o "="%char = 1%nat) overrides.
Proof.
  revert m. induction overrides as [|o overrides IH]; intros m.
  - split; [by constructor|]. intros _. by exists m.
  - destruct (decide (countByte o "="%char = 1%nat)) as [Ho|Ho].
    + pose proof Ho as (p0 & p1 & Hs)%one_sep_Split.
      erewrite parseMacOverridesFrom_cons_ok by done. rewrite IH, Forall_cons. tauto.
    + rewrite parseMacOverridesFrom_cons_bad, Forall_cons by done.
      split; [by intros [? ?]|tauto].
Qed.

(** The renaming loop. *)
Lemma renameHost_None m host :
  m !! strings.ToLower (HardwareAddrString (main.MAC host)) = None ->
  main.renameHost m host
  = main.mkHost (strings.ReplaceAll (main.Name host) " "%char "-") (main.IP host)
      (main.MAC host).
Proof.
  intros Hm. unfold main.renameHost. rewrite Hm.
  destruct (strings.Contains (main.Name host) " ") eqn:Hc; [done|].
  by rewrite ReplaceAll_id.
Qed.

Lemma renameHost_Some m host override :
  m !! strings.ToLower (HardwareAddrString (main.MAC host)) = Some override ->
  main.renameHost m host = main.mkHost override (main.IP host) (main.MAC host).
Proof. intros Hm. unfold main.renameHost. by rewrite Hm. Qed.

Lemma renameHost_MAC m host : main.MAC (main.renameHost m host) = main.MAC host.
Proof. unfold main.renameHost. by destruct (m !! _). Qed.

Lemma renameHost_IP m host : main.IP (main.renameHost m host) = main.IP host.
Proof. unfold main.renameHost. by destruct (m !! _). Qed.

Lemma renameHost_idemp m host :
  main.renameHost m (main.renameHost m host) = main.renameHost m host.
Proof.
  destruct (m !! strings.ToLower (HardwareAddrString (main.MAC host))) as [o|] eqn:Hm.
  - rewrite (renameHost_Some m host o) by done.
    by apply (renameHost_Some m (main.mkHost o (main.IP host) (main.MAC host))).
  - rewrite (renameHost_None m host) by done. rewrite renameHost_None by done.
    cbn [main.Name main.IP main.MAC]. by rewrite ReplaceAll_id by by apply ReplaceAll_Contains.
Qed.

End overrides_facts.

(** ** The providers *)

Section udm_facts.

Context `{!GoLibrary, !Network, !udmProHostsProvider.Json}.

Import udmProHostsProvider.

Lemma hostsOf_inl devices acc hosts :
  hostsOf devices acc = inl hosts
  <-> exists tail, hosts = acc ++ tail /\ Forall2 hostOfDevice devices tail.
Proof.
  revert acc. induction devices as [|d devices IH]; intros acc; cbn [hostsOf].
  - split.
    + intros [= <-]. exists []. by rewrite app_nil_r.
    + intros (tail & -> & ->%Forall2_nil_inv_l). by rewrite app_nil_r.
  - destruct (ParseMAC (ItemMAC d)) as [mac|err] eqn:Hmac.
    + rewrite IH. split.
      * intros (tail & -> & HF). eexists (_ :: tail). rewrite <- app_assoc.
        split; [done|]. constructor; [|done]. by split_and!.
      * intros (tail & -> & HF).
        apply Forall2_cons_inv_l in HF as (h & tail' & (Hm & Hn & Hi) & HF & ->).
        exists tail'. rewrite <- app_assoc. split; [|done]. cbn. do 2 f_equal.
        destruct h as [n i m]. cbn in Hm, Hn, Hi. rewrite Hmac in Hm.
        injection Hm as ->. by subst.
    + split; [done|]. intros (tail & -> & HF).
      apply Forall2_cons_inv_l in HF as (h & tail' & (Hm & _) & _).
      rewrite Hmac in Hm. discriminate Hm.
Qed.

Lemma hostsOf_inr good bad rest acc err :
  Forall (fun d => exists mac, ParseMAC (ItemMAC d) = inl mac) good ->
  ParseMAC (ItemMAC bad) = inr err ->
  hostsOf (good ++ bad :: rest) acc = inr err.
Proof.
  intros Hg Hb. revert acc. induction Hg as [|d good [mac Hd] _ IH]; intros acc.
  - cbn [app hostsOf]. by rewrite Hb.
  - rewrite <- app_comm_cons. cbn [hostsOf]. rewrite Hd. apply IH.
Qed.

End udm_facts.

Section prefers_facts.

Context `{!GoLibrary}.

Implicit Types (hosts : gmap string net.IP).

(** Two loops of assignments, one after the other: the names of the second
    loop have the addresses of the second loop. *)
Lemma foldl_insert_prefers (first second : list (string * net.IP)) :
  prefers first second
    (foldl (fun hosts kv => <[kv.1 := kv.2]> hosts)
       (foldl (fun hosts kv => <[kv.1 := kv.2]> hosts) ∅ second) first).
Proof.
  split_and!.
  - intros name Hn.
    destruct (foldl_insert_in fst snd first
                (foldl (fun hosts kv => <[kv.1 := kv.2]> hosts) ∅ second) name Hn)
      as ([k ip] & Hx & Hk & Hl).
    cbn in Hk. subst k. by exists ip.
  - intros name Hn1 Hn2. rewrite (foldl_insert_notin fst snd) by done.
    destruct (foldl_insert_in fst snd second ∅ name Hn2) as ([k ip] & Hx & Hk & Hl).
    cbn in Hk. subst k. by exists ip.
  - intros name Hn1 Hn2. by rewrite !(foldl_insert_notin fst snd) by done.
Qed.

Lemma addLeases_flat leases hosts :
  edgeos.addLeases leases hosts
  = foldl (fun hosts lease => <[edgeos.ClientHostname lease.2 := ParseIP lease.1]> hosts)
      hosts (leasesOf leases).
Proof. unfold edgeos.addLeases, leasesOf. by rewrite <- foldl_concat, foldl_fmap. Qed.

Lemma addStaticMappings_flat sharedNetworks hosts :
  edgeos.addStaticMappings sharedNetworks hosts
  = foldl (fun hosts staticMapping =>
             <[staticMapping.1 := ParseIP (edgeos.IPAddress staticMapping.2)]> hosts)
      hosts (staticMappingsOf sharedNetworks).
Proof.
  unfold edgeos.addStaticMappings, staticMappingsOf.
  by rewrite <- foldl_concat, foldl_fmap, <- foldl_concat, foldl_fmap.
Qed.

Lemma addLeases_entries leases hosts :
  edgeos.addLeases leases hosts
  = foldl (fun hosts kv => <[kv.1 := kv.2]> hosts) hosts
      (leaseEntries edgeos.ClientHostname (leasesOf leases)).
Proof. rewrite addLeases_flat. unfold leaseEntries. by rewrite foldl_fmap. Qed.

Lemma addStaticMappings_entries sharedNetworks hosts :
  edgeos.addStaticMappings sharedNetworks hosts
  = foldl (fun hosts kv => <[kv.1 := kv.2]> hosts) hosts
      (staticEntries (staticMappingsOf sharedNetworks)).
Proof. rewrite addStaticMappings_flat. unfold staticEntries. by rewrite foldl_fmap. Qed.

End prefers_facts.

Section edgeos_facts.

Context `{!GoLibrary, !Network, !edgeos.Json}.

Implicit Types (hosts : gmap string net.IP) (c : edgeos.client).

Lemma newClient_inl address username password c :
  edgeos.newClient address username password = inl c
  <-> cookiejarNew = None
      /\ (exists login, PostForm ("https://" +:+ address +:+ "/")
                          [("username", [username]); ("password", [password])] = inl login)
      /\ c = edgeos.mkClient address.
Proof.
  unfold edgeos.newClient. destruct cookiejarNew as [e|]; [by split; [|intros [? _]]|].
  destruct (PostForm _ _) as [login|e].
  - split; [intros [= <-]; eauto|]. by intros (_ & _ & ->).
  - split; [done|]. by intros (_ & [? ?] & _).
Qed.

Lemma populateDynamicHosts_None c hosts hosts' :
  edgeos.populateDynamicHosts c hosts = (hosts', None)
  <-> exists resp decoded,
        Get ("https://" +:+ edgeos.address c +:+ "/api/edge/data.json?data=dhcp_leases")
        = inl resp
        /\ http.StatusCode resp = 200%Z
        /\ edgeos.decodeLeases (http.Body resp) = inl decoded
        /\ hosts' = edgeos.addLeases (edgeos.DHCPServerLeases (edgeos.Output decoded)) hosts.
Proof.
  unfold edgeos.populateDynamicHosts, http.StatusOK.
  destruct (Get _) as [resp|e]; [|split; [done|by intros (? & ? & ? & _)]].
  case_bool_decide as Hs; cbn [negb].
  - destruct (edgeos.decodeLeases (http.Body resp)) as [decoded|e] eqn:Hd.
    + split.
      * intros [= <-]. by exists resp, decoded.
      * intros (resp' & decoded' & [= <-] & _ & Hd' & ->). congruence.
    + split; [done|]. intros (resp' & decoded' & [= <-] & _ & Hd' & _). congruence.
  - split; [done|]. by intros (resp' & decoded' & [= <-] & ? & _).
Qed.

Lemma populateDynamicHosts_Some c hosts hosts' err :
  edgeos.populateDynamicHosts c hosts = (hosts', Some err) -> hosts' = hosts.
Proof.
  unfold edgeos.populateDynamicHosts.
  destruct (Get _) as [resp|e]; [|by intros [= <- _]].
  destruct (negb _); [by intros [= <- _]|].
  destruct (edgeos.decodeLeases _); [done|by intros [= <- _]].
Qed.

Lemma populateStaticHosts_None c hosts hosts' :
  edgeos.populateStaticHosts c hosts = (hosts', None)
  <-> exists resp decoded,
        Get ("https://" +:+ edgeos.address c +:+ "/api/edge/get.json") = inl resp
        /\ http.StatusCode resp = 200%Z
        /\ edgeos.decodeGet (http.Body resp) = inl decoded
        /\ hosts' = edgeos.addStaticMappings
                      (edgeos.SharedNetwork
                         (edgeos.DHCPServer (edgeos.Service (edgeos.GET decoded)))) hosts.
Proof.
  unfold edgeos.populateStaticHosts, http.StatusOK.
  destruct (Get _) as [resp|e]; [|split; [done|by intros (? & ? & ? & _)]].
  case_bool_decide as Hs; cbn [negb].
  - destruct (edgeos.decodeGet (http.Body resp)) as [decoded|e] eqn:Hd.
    + split.
      * intros [= <-]. by exists resp, decoded.
      * intros (resp' & decoded' & [= <-] & _ & Hd' & ->). congruence.
    + split; [done|]. intros (resp' & decoded' & [= <-] & _ & Hd' & _). congruence.
  - split; [done|]. by intros (resp' & decoded' & [= <-] & ? & _).
Qed.

Lemma populateStaticHosts_Some c hosts hosts' err :
  edgeos.populateStaticHosts c hosts = (hosts', Some err) -> hosts' = hosts.
Proof.
  unfold edgeos.populateStaticHosts.
  destruct (Get _) as [resp|e]; [|by intros [= <- _]].
  destruct (negb _); [by intros [= <- _]|].
  destruct (edgeos.decodeGet _); [done|by intros [= <- _]].
Qed.

End edgeos_facts.

Section old_edgeos_facts.

Context `{!GoLibrary, !Network, !edgeOSHostsProvider.Json}.

Lemma getStaticHosts_Some e toReturn :
  edgeOSHostsProvider.getStaticHosts e = Some toReturn
  <-> exists resp sharedNetworks,
        Get ("https://" +:+ edgeOSHostsProvider.address e +:+ "/api/edge/get.json") = inl resp
        /\ edgeOSHostsProvider.decodeGet (http.Body resp) = inl sharedNetworks
        /\ toReturn = edgeos.addStaticMappings sharedNetworks ∅.
Proof.
  unfold edgeOSHostsProvider.getStaticHosts.
  destruct (Get _) as [resp|err]; [|split; [done|by intros (? & ? & ? & _)]].
  destruct (edgeOSHostsProvider.decodeGet (http.Body resp)) as [sn|err] eqn:Hd.
  - split.
    + intros [= <-]. by exists resp, sn.
    + intros (resp' & sn' & [= <-] & Hd' & ->). rewrite Hd in Hd'.
      by injection Hd' as <-.
  - split; [done|]. intros (resp' & sn' & [= <-] & Hd' & _). congruence.
Qed.

Lemma GetHosts_Some e hosts :
  edgeOSHostsProvider.GetHosts e = Some hosts
  <-> exists resp1 leases resp2 sharedNetworks,
        Get ("https://" +:+ edgeOSHostsProvider.address e
             +:+ "/api/edge/data.json?data=dhcp_leases") = inl resp1
        /\ edgeOSHostsProvider.decodeLeases (http.Body resp1) = inl leases
        /\ Get ("https://" +:+ edgeOSHostsProvider.address e +:+ "/api/edge/get.json")
           = inl resp2
        /\ edgeOSHostsProvider.decodeGet (http.Body resp2) = inl sharedNetworks
        /\ hosts
           = foldl (fun hosts kv => <[kv.1 := kv.2]> hosts)
               (foldl (fun hosts kv => <[kv.1 := kv.2]> hosts) ∅
                  (staticEntries (staticMappingsOf sharedNetworks)))
               (leaseEntries edgeOSHostsProvider.ClientHostname (leasesOf leases)).
Proof.
  assert (Hflat : forall leases (toReturn : gmap string net.IP),
             foldl (fun toReturn (value : string * list (string * edgeOSHostsProvider.dhcpServerLease)) =>
                      foldl (fun toReturn lease =>
                               <[edgeOSHostsProvider.ClientHostname lease.2 := ParseIP lease.1]>
                                 toReturn)
                        toReturn value.2)
               toReturn leases
             = foldl (fun hosts kv => <[kv.1 := kv.2]> hosts) toReturn
                 (leaseEntries edgeOSHostsProvider.ClientHostname (leasesOf leases))).
  { intros leases toReturn. unfold leaseEntries, leasesOf.
    by rewrite foldl_fmap, <- foldl_concat, foldl_fmap. }
  unfold edgeOSHostsProvider.GetHosts.
  destruct (Get ("https://" +:+ edgeOSHostsProvider.address e
                 +:+ "/api/edge/data.json?data=dhcp_leases")) as [resp1|err];
    [|split; [done|by intros (? & ? & ? & ? & ? & _)]].
  destruct (edgeOSHostsProvider.decodeLeases (http.Body resp1)) as [leases|err] eqn:Hd1;
    [|split; [done|intros (? & ? & ? & ? & [= <-] & ? & _); congruence]].
  destruct (edgeOSHostsProvider.getStaticHosts e) as [toReturn|] eqn:Hs.
  - apply getStaticHosts_Some in Hs as (resp2 & sn & Hg2 & Hd2 & ->).
    rewrite Hflat, addStaticMappings_entries. split.
    + intros [= <-]. by exists resp1, leases, resp2, sn.
    + intros (resp1' & leases' & resp2' & sn' & [= <-] & Hd1' & Hg2' & Hd2' & ->).
      congruence.
  - split; [done|].
    intros (resp1' & leases' & resp2' & sn' & _ & _ & Hg2' & Hd2' & _).
    assert (Hsome : edgeOSHostsProvider.getStaticHosts e
                    = Some (edgeos.addStaticMappings sn' ∅)).
    { apply getStaticHosts_Some. by exists resp2', sn'. }
    congruence.
Qed.

End old_edgeos_facts.

(** ** Claims *)

(** C1 (re-enable on match). The source compares the stored and the incoming
    name up to case, but hands the incoming name to [Enable], which compares
    with [==]: on the table [{host-a, 10.0.0.1, disabled}] and the mapping
    [{"Host-A": 10.0.0.1}] the entry is found (the function returns true and
    nothing is appended) and stays disabled, where the claim has it enabled.
    With the name in the stored casing the entry is enabled. *)
Theorem C1_reenable_misses_other_case {U : strings.Unicode} :
  let hosts := [mkHostname "host-a" ip_10_0_0_1 false] in
  removeHostsThatMatchIPAndNotDomain hosts ip_10_0_0_1 "Host-A" = (hosts, true)
  /\ reconcile hosts [("Host-A", ip_10_0_0_1)] = [mkHostname "host-a" ip_10_0_0_1 false]
  /\ reconcile hosts [("host-a", ip_10_0_0_1)] = [mkHostname "host-a" ip_10_0_0_1 true].
Proof. cbv zeta. split_and!; vm_compute; reflexivity. Qed.

(** C2, as stated, fails: the entry for [fe80::1], an address that is not in
    the mapping, is enabled because it shares its name with a pair of the
    mapping, so the entry as it was is no longer in the table. *)
Lemma C2_counterexample :
  let U := noCaseTables in
  let hosts := [mkHostname "host-a" ip_10_0_0_1 false; mkHostname "host-a" ip_fe80_1 false] in
  let mapping := [("host-a", ip_10_0_0_1)] in
  let e := mkHostname "host-a" ip_fe80_1 false in
  hosts !! 1%nat = Some e /\ (IP e ∉ addresses mapping) /\
  reconcile hosts mapping !! 1%nat = Some (mkHostname "host-a" ip_fe80_1 true).
Proof.
  cbv zeta. split; [reflexivity|]. split; [|vm_compute; reflexivity].
  vm_compute. intros H. apply list_elem_of_singleton in H. discriminate H.
Qed.

(** C2 (frame property), amended: the entries whose address is not in the
    mapping and whose name is not a name of the mapping are left untouched:
    the same entries, with the same flags, in the same relative order. In
    particular the table [{host-b, 10.0.0.2, enabled}] with the mapping
    [{"host-a": 10.0.0.1}] keeps the host-b entry and gains a host-a entry. *)
Theorem C2_frame_unrelated {U : strings.Unicode} :
  (forall (mapping : Mapping) (hosts : Hostlist),
      filter (unrelated mapping) (reconcile hosts mapping)
      = filter (unrelated mapping) hosts)
  /\ reconcile [mkHostname "host-b" ip_10_0_0_2 true] [("host-a", ip_10_0_0_1)]
     = [mkHostname "host-b" ip_10_0_0_2 true; mkHostname "host-a" ip_10_0_0_1 true].
Proof.
  split; [|vm_compute; reflexivity].
  intros mapping hosts.
  apply (reconcile_ind
           (fun h => filter (unrelated mapping) h = filter (unrelated mapping) hosts));
    [done|].
  intros h [name ip] Hp <-. apply updateHost_filter.
  - unfold unrelated. intros e e' Hd Hi. by rewrite Hd, Hi.
  - intros e [Hip _] <-. apply Hip. by eapply elem_of_addresses.
  - intros e [_ Hd] <-. apply Hd. by eapply elem_of_names.
Qed.

(** C3, as stated, fails: with two names on one address the loop evicts and
    re-adds at every run, and the second run leaves the entries in another
    order than the first. *)
Lemma C3_counterexample :
  let U := noCaseTables in
  let mapping := [("a", ip_10_0_0_1); ("c", ip_10_0_0_1); ("b", ip_10_0_0_2)] in
  reconcile [] mapping
  = [mkHostname "c" ip_10_0_0_1 true; mkHostname "b" ip_10_0_0_2 true]
  /\ reconcile (reconcile [] mapping) mapping
     = [mkHostname "b" ip_10_0_0_2 true; mkHostname "c" ip_10_0_0_1 true]
  /\ reconcile (reconcile [] mapping) mapping <> reconcile [] mapping.
Proof.
  cbv zeta. split; [vm_compute; reflexivity|]. split; [vm_compute; reflexivity|].
  vm_compute. discriminate.
Qed.

(** Why C3 needs names that differ up to case: [Add] overwrites the entry
    of "Host-A" at 10.0.0.1, which the pair of "host-a" had matched. *)
Example C3_names_up_to_case {U : strings.Unicode} :
  let mapping := [("host-a", ip_10_0_0_1); ("Host-A", ip_10_0_0_2)] in
  let hosts := [mkHostname "Host-A" ip_10_0_0_1 true] in
  NoDup (addresses mapping) /\ NoDup (names mapping) /\
  reconcile hosts mapping = [mkHostname "Host-A" ip_10_0_0_2 true] /\
  reconcile (reconcile hosts mapping) mapping
  = [mkHostname "Host-A" ip_10_0_0_2 true; mkHostname "host-a" ip_10_0_0_1 true].
Proof.
  cbv zeta. split_and!; try (vm_compute; reflexivity);
    apply (bool_decide_unpack _); vm_compute; reflexivity.
Qed.

(** C3 (idempotence), amended. The loop acts on the pairs that have a name
    and an address: a pair without a name is skipped, and for the nil address
    nothing is found and nothing is added. When the pairs on which it acts
    have pairwise distinct addresses and names pairwise distinct up to case,
    a second run over the reconciled table, in whatever order it visits the
    pairs, changes nothing. The other pairs may repeat names and addresses
    as they will. The table is one whose entries have an address, as every
    table that the library reads has. *)
Theorem C3_idempotent {U : strings.Unicode} (mapping mapping' : Mapping)
    (hosts : Hostlist) :
  addressed hosts ->
  NoDup (addresses (filter acts mapping)) -> NoDup (lowerNames (filter acts mapping)) ->
  mapping' ≡ₚ mapping ->
  reconcile (reconcile hosts mapping) mapping' = reconcile hosts mapping.
Proof.
  intros Hh Ha Hn Hp.
  rewrite (reconcile_acts hosts mapping) by done.
  rewrite reconcile_acts by (by apply reconcile_addressed).
  apply reconcile_fix. intros p Hin.
  apply settled_fix, reconcile_settled; [apply acts_filter|done|done|].
  by rewrite <- Hp.
Qed.

Lemma C3_idempotent_witness :
  let U := noCaseTables in
  let mapping := [("Host-A", ip_10_0_0_1); ("", ip_10_0_0_1); ("printer", net.Nil);
                  ("tv", net.Nil); ("host-b", ip_10_0_0_2)] in
  let hosts := [mkHostname "host-a" ip_10_0_0_1 false; mkHostname "old" ip_10_0_0_2 true] in
  reconcile (reconcile hosts mapping) mapping = reconcile hosts mapping.
Proof.
  cbv zeta. apply C3_idempotent.
  - repeat constructor; discriminate.
  - apply (bool_decide_unpack _). vm_compute. reflexivity.
  - apply (bool_decide_unpack _). vm_compute. reflexivity.
  - reflexivity.
Defined.

(** C4, as stated, fails: no entry of the table holds 10.0.0.1 and none is
    removed for holding it, so the claim has the new entry appended behind
    the two entries of the table; [Add] instead overwrites the entry of the
    same name at 10.0.0.2, and the new entry is first, not last. *)
Lemma C4_counterexample :
  let U := noCaseTables in
  let hosts := [mkHostname "host-a" ip_10_0_0_2 true; mkHostname "nas" ip_1_1_1_1 true] in
  let result := reconcile hosts [("host-a", ip_10_0_0_1)] in
  "host-a" <> "" /\ ~ hasMatch hosts ip_10_0_0_1 "host-a" /\
  result = [mkHostname "host-a" ip_10_0_0_1 true; mkHostname "nas" ip_1_1_1_1 true] /\
  last result <> Some (newEntry "host-a" ip_10_0_0_1) /\
  result <> filter (fun e => IP e <> ip_10_0_0_1) hosts ++ [newEntry "host-a" ip_10_0_0_1].
Proof.
  cbv zeta. split; [done|]. split.
  - apply (bool_decide_unpack (~ _)). vm_compute. reflexivity.
  - split_and!; [vm_compute; reflexivity|vm_compute; discriminate|vm_compute; discriminate].
Qed.

(** C4 (evict and add), amended. Take a pair with a name and an address such
    that no entry of the table holds the address under that name (up to
    case), in a mapping in which no other pair with a name has that address
    and no pair visited later, with a name and an address, has that name (in
    a Go map no other pair has it). When the loop reaches the pair, still no
    entry holds the address under the name, and the iteration removes every
    entry with the address and hands the new enabled entry to [Add]: it is
    appended when no remaining entry has its domain and IP version, and
    otherwise overwrites, in place, the first remaining entry with its
    domain and IP version. When the loop ends exactly one entry holds the
    address, the new one. Pairs without a name or with the nil address may
    come where they will. *)
Theorem C4_evict_and_add {U : strings.Unicode} (hosts : Hostlist) (before after : Mapping)
    (name : string) (ip : net.IP) :
  name <> "" -> ip <> net.Nil -> ~ hasMatch hosts ip name ->
  Forall (fun q => q.1 <> "" -> q.2 <> ip) (before ++ after) ->
  Forall (fun q => acts q -> q.1 <> name) after ->
  let new := newEntry name ip in
  let reached := reconcile hosts before in
  let kept := filter (fun e => IP e <> ip) reached in
  ~ hasMatch reached ip name
  /\ updateHost reached (name, ip) = Add kept new
  /\ (Forall (fun e => ~ conflicts new e) kept ->
      updateHost reached (name, ip) = kept ++ [new])
  /\ (forall h1 c h2, kept = h1 ++ c :: h2 ->
        Forall (fun e => ~ conflicts new e) h1 -> conflicts new c ->
        updateHost reached (name, ip) = h1 ++ new :: h2)
  /\ FilterByIP (reconcile hosts (before ++ (name, ip) :: after)) ip = [new].
Proof.
  intros Hn Hnil Hm [Hbefore Hafter]%Forall_app Hlater new reached kept.
  assert (Hreached : ~ hasMatch reached ip name).
  { by apply reconcile_no_new_match. }
  assert (Hspec : updateHost reached (name, ip) = Add kept new).
  { rewrite updateHost_spec.
    by rewrite (bool_decide_eq_false_2 _ Hn), (bool_decide_eq_false_2 _ Hreached). }
  assert (Hkept : Forall (fun e => IP e <> IP new) kept).
  { apply Forall_forall. intros e He. by apply list_elem_of_filter in He as [He _]. }
  split; [done|]. split; [done|]. split_and!.
  - rewrite Hspec. by apply Add_append.
  - intros h1 c h2 Hk Hh1 Hc. rewrite Hspec, Hk. apply Add_overwrite; [done|done|done|].
    rewrite Hk in Hkept. apply Forall_app in Hkept as [_ Hkept].
    by apply Forall_cons in Hkept as [Hkept _].
  - rewrite reconcile_app, reconcile_cons. fold reached.
    apply reconcile_keeps_new; [done|done|done|].
    rewrite Hspec. by apply (Add_FilterByIP kept new).
Qed.

Lemma C4_evict_and_add_witness :
  let U := noCaseTables in
  let hosts := [mkHostname "old-name" ip_10_0_0_1 true; mkHostname "nas" ip_10_0_0_2 true] in
  let mapping := [("printer", net.Nil); ("new-name", ip_10_0_0_1); ("", ip_10_0_0_1);
                  ("new-name", net.Nil); ("NAS", ip_10_0_0_2)] in
  updateHost (reconcile hosts [("printer", net.Nil)]) ("new-name", ip_10_0_0_1)
  = [mkHostname "nas" ip_10_0_0_2 true; mkHostname "new-name" ip_10_0_0_1 true]
  /\ FilterByIP (reconcile hosts mapping) ip_10_0_0_1
     = [mkHostname "new-name" ip_10_0_0_1 true].
Proof.
  cbv zeta.
  assert (Hm : ~ @hasMatch noCaseTables
                   [mkHostname "old-name" ip_10_0_0_1 true; mkHostname "nas" ip_10_0_0_2 true]
                   ip_10_0_0_1 "new-name").
  { apply (bool_decide_unpack _). vm_compute. reflexivity. }
  destruct (@C4_evict_and_add noCaseTables
              [mkHostname "old-name" ip_10_0_0_1 true; mkHostname "nas" ip_10_0_0_2 true]
              [("printer", net.Nil)]
              [("", ip_10_0_0_1); ("new-name", net.Nil); ("NAS", ip_10_0_0_2)]
              "new-name" ip_10_0_0_1)
    as (_ & _ & Happend & _ & Hall).
  - discriminate.
  - discriminate.
  - exact Hm.
  - repeat constructor; cbn; (discriminate || (intros H; by destruct H)).
  - repeat constructor; cbn; intros [Hname Haddr]; (discriminate || by destruct Haddr).
  - split; [|exact Hall]. apply Happend. repeat constructor.
    intros [Hd _]. discriminate Hd.
Defined.

(** The instances named by C4: the multi-alias collapse and the fresh pair. *)
Example C4_multi_alias_collapse {U : strings.Unicode} :
  reconcile [mkHostname "a" ip_1_1_1_1 true; mkHostname "b" ip_1_1_1_1 true]
            [("b", ip_1_1_1_1)]
  = [mkHostname "b" ip_1_1_1_1 true].
Proof. vm_compute. reflexivity. Qed.

Example C4_fresh_pair {U : strings.Unicode} (name : string) (ip : net.IP) :
  name <> "" -> ip <> net.Nil -> reconcile [] [(name, ip)] = [newEntry name ip].
Proof.
  intros Hn Hnil. cbn [reconcile fold_left]. rewrite updateHost_spec.
  rewrite (bool_decide_eq_false_2 _ Hn), bool_decide_eq_false_2.
  - by apply Add_append.
  - by intros H%Exists_nil.
Qed.

(** For the nil address, which [net.ParseIP] returns for a string that is no
    address, [Add] returns an error and no entry is added. *)
Example C4_nil_address {U : strings.Unicode} (name : string) :
  reconcile [] [(name, net.Nil)] = [].
Proof.
  cbn [reconcile fold_left]. rewrite updateHost_spec.
  case_bool_decide as Hn; [done|]. rewrite bool_decide_eq_false_2; [done|].
  by intros Hm%Exists_nil.
Qed.

Example C4_stale_alias_eviction {U : strings.Unicode} :
  reconcile [mkHostname "old-name" ip_10_0_0_1 true] [("new-name", ip_10_0_0_1)]
  = [mkHostname "new-name" ip_10_0_0_1 true].
Proof. vm_compute. reflexivity. Qed.

(** C5, as stated, fails: two pairs with distinct addresses that are both
    added end up in the order in which the loop visited them. *)
Lemma C5_counterexample :
  let U := noCaseTables in
  let m1 := [("a", ip_10_0_0_1); ("b", ip_10_0_0_2)] in
  let m2 := [("b", ip_10_0_0_2); ("a", ip_10_0_0_1)] in
  m1 ≡ₚ m2 /\ NoDup (addresses m1) /\ reconcile [] m1 <> reconcile [] m2.
Proof.
  cbv zeta. split; [apply perm_swap|]. split.
  - apply (bool_decide_unpack _). vm_compute. reflexivity.
  - vm_compute. discriminate.
Qed.

(** Why C5 needs a well-formed table: with two entries of one domain and IP
    version, which of them [Add] overwrites depends on the visiting order. *)
Example C5_not_well_formed {U : strings.Unicode} :
  let hosts := [mkHostname "b" ip_10_0_0_1 true; mkHostname "b" ip_1_1_1_1 true] in
  let m1 := [("a", ip_10_0_0_1); ("b", ip_10_0_0_2)] in
  let m2 := [("b", ip_10_0_0_2); ("a", ip_10_0_0_1)] in
  reconcile hosts m1 = [mkHostname "b" ip_10_0_0_2 true; mkHostname "a" ip_10_0_0_1 true]
  /\ reconcile hosts m2
     = [mkHostname "b" ip_10_0_0_2 true; mkHostname "b" ip_1_1_1_1 true;
        mkHostname "a" ip_10_0_0_1 true].
Proof. cbv zeta. split; vm_compute; reflexivity. Qed.

(** Why C5 needs names that differ up to case: whether [Enable "a"] is called,
    and enables the entry at 1.1.1.1, depends on whether [Enable "A"] has
    already enabled the entry that the pair of "a" matches. *)
Example C5_names_up_to_case {U : strings.Unicode} :
  let hosts := [mkHostname "A" ip_10_0_0_1 false; mkHostname "A" ip_fe80_1 false;
                mkHostname "a" ip_1_1_1_1 false] in
  let m1 := [("a", ip_10_0_0_1); ("A", ip_fe80_1)] in
  let m2 := [("A", ip_fe80_1); ("a", ip_10_0_0_1)] in
  wellFormed hosts
  /\ reconcile hosts m1
     = [mkHostname "A" ip_10_0_0_1 true; mkHostname "A" ip_fe80_1 true;
        mkHostname "a" ip_1_1_1_1 true]
  /\ reconcile hosts m2
     = [mkHostname "A" ip_10_0_0_1 true; mkHostname "A" ip_fe80_1 true;
        mkHostname "a" ip_1_1_1_1 false].
Proof.
  cbv zeta. split_and!; try (vm_compute; reflexivity).
  apply (bool_decide_unpack _). vm_compute. reflexivity.
Qed.

(** C5 (order-independence), amended: on a well-formed table (no two entries
    with the same domain and IP version, as [Add] keeps it) whose entries
    have an address, for a mapping in which the pairs on which the loop acts
    (those with a name and an address) have pairwise distinct addresses and
    names pairwise distinct up to case, the tables reached with two visiting
    orders hold the same entries; they may hold them in different orders. *)
Theorem C5_order_independent {U : strings.Unicode} (hosts : Hostlist) (m1 m2 : Mapping) :
  wellFormed hosts -> addressed hosts ->
  NoDup (addresses (filter acts m1)) -> NoDup (lowerNames (filter acts m1)) ->
  m1 ≡ₚ m2 ->
  reconcile hosts m1 ≡ₚ reconcile hosts m2.
Proof.
  intros Hwf Hh Ha Hn Hp.
  rewrite (reconcile_acts hosts m1), (reconcile_acts hosts m2) by done.
  rewrite !reconcile_reconcileP by (done || apply acts_filter).
  apply reconcileP_mapping_Permutation; [|done|done]. by rewrite Hp.
Qed.

Lemma C5_order_independent_witness :
  let U := noCaseTables in
  let hosts := [mkHostname "b" ip_10_0_0_1 true; mkHostname "nas" ip_fe80_1 false] in
  reconcile hosts [("a", ip_10_0_0_1); ("", ip_10_0_0_1); ("tv", net.Nil); ("b", ip_10_0_0_2)]
  ≡ₚ reconcile hosts [("b", ip_10_0_0_2); ("tv", net.Nil); ("a", ip_10_0_0_1);
                      ("", ip_10_0_0_1)].
Proof.
  cbv zeta. apply C5_order_independent.
  - apply (bool_decide_unpack _). vm_compute. reflexivity.
  - repeat constructor; discriminate.
  - apply (bool_decide_unpack _). vm_compute. reflexivity.
  - apply (bool_decide_unpack _). vm_compute. reflexivity.
  - apply (bool_decide_unpack _). vm_compute. reflexivity.
Defined.



(** C7 (empty-name skip): a pair with the empty name changes nothing, the
    loop is the loop over the pairs with a name, and an entry with the empty
    name in the result is an entry of the original table. *)
Theorem C7_empty_name_skip {U : strings.Unicode} :
  (forall (hosts : Hostlist) (ip : net.IP), updateHost hosts ("", ip) = hosts)
  /\ (forall (hosts : Hostlist) (m1 m2 : Mapping) (ip : net.IP),
        reconcile hosts (m1 ++ ("", ip) :: m2) = reconcile hosts (m1 ++ m2))
  /\ (forall (hosts : Hostlist) (mapping : Mapping) (e : Hostname),
        e ∈ reconcile hosts mapping -> Domain e = "" -> e ∈ hosts).
Proof.
  split; [done|]. split.
  - intros hosts m1 m2 ip. by rewrite !reconcile_app, reconcile_cons.
  - intros hosts mapping.
    apply (reconcile_ind (fun h => forall e, e ∈ h -> Domain e = "" -> e ∈ hosts));
      [done|].
    intros h [name ip] _ IH e He Hd.
    destruct (decide (name = "")) as [->|Hn]; [by apply IH|].
    apply IH; [|done]. eapply updateHost_other_domain; [done|]. congruence.
Qed.

(** C8 (persistence of the reconciled table). [updateHostsFile] of
    src/pkg/host/updater.go, the one [Updater.Update] calls, never hands a
    table to [Save]: the call is commented out, the function prints the
    reconciled list and returns [nil]. On an empty hosts file and the
    mapping [{"host-a": 10.0.0.1}] it returns [nil], has reconciled to
    [{host-a, 10.0.0.1, enabled}] and has saved nothing, where src/main.go
    on the same input saves that table. *)
Theorem C8_pkg_host_does_not_save {U : strings.Unicode} :
  (forall (hosts : Mapping) (w : Store),
      saved (host.updateHostsFile hosts w).2 = saved w)
  /\ (let w := mkStore None [] [] None [] [] in
      let hosts := [("host-a", ip_10_0_0_1)] in
      (host.updateHostsFile hosts w).1 = None
      /\ saved (host.updateHostsFile hosts w).2 = []
      /\ stdout (host.updateHostsFile hosts w).2
         = [inl "hostfile.Hosts"; inr [mkHostname "host-a" ip_10_0_0_1 true]]
      /\ saved (main.updateHostsFile [main.mkHost "host-a" ip_10_0_0_1 []] w).2
         = [[mkHostname "host-a" ip_10_0_0_1 true]]).
Proof.
  split.
  - intros hosts w. unfold host.updateHostsFile, Read, Parse.
    destruct (readError w); [done|]. cbn.
    destruct (negb (List.length (parseErrors w) =? 0)%nat); done.
  - cbv zeta. split_and!; vm_compute; reflexivity.
Qed.

(** C9 (aggregated parse-error abort): when [Parse] returns errors, both
    [updateHostsFile] return one error, built from the whole list, in which
    every parse error occurs; nothing is reconciled, saved or printed: the
    store is as it was. *)
Theorem C9_parse_errors_abort {U : strings.Unicode} (hosts : list main.Host) (mapping : Mapping) (w : Store) :
  Read w = None -> parseErrors w <> [] ->
  main.updateHostsFile hosts w = (Some (parseErrorsError (parseErrors w)), w)
  /\ host.updateHostsFile mapping w = (Some (parseErrorsError (parseErrors w)), w)
  /\ (forall err, err ∈ parseErrors w ->
        exists pre post, parseErrorsError (parseErrors w) = pre +:+ err +:+ post).
Proof.
  intros Hr Hp.
  assert (Hlen : negb (List.length (parseErrors w) =? 0)%nat = true).
  { destruct (parseErrors w); [done|done]. }
  unfold main.updateHostsFile, host.updateHostsFile, Parse.
  rewrite Hr, Hlen. split_and!; [done|done|].
  intros err. apply parseErrorsError_occurs.
Qed.

Lemma C9_parse_errors_abort_witness :
  let U := noCaseTables in
  let w := mkStore None [mkHostname "host-a" ip_10_0_0_1 false]
             ["Duplicate hostname entry for host-a -> 10.0.0.1";
              "Conflicting hostname entries for nas -> 10.0.0.2 and -> 10.0.0.3"]
             None [] [] in
  host.updateHostsFile [("host-b", ip_10_0_0_2)] w
  = (Some "multiple errors parsing hosts file! [Duplicate hostname entry for host-a -> 10.0.0.1 Conflicting hostname entries for nas -> 10.0.0.2 and -> 10.0.0.3]",
     w).
Proof.
  cbv zeta.
  refine (proj1 (proj2 (C9_parse_errors_abort [] _ _ _ _))); [reflexivity|discriminate].
Defined.

(** C10 (unregistered provider): [Update] with an identifier that no
    [WithServer] registered finds the zero [ServerProvider] in the map and
    calls its nil [GetHostsFn]: the call panics, nothing is returned and the
    store is not touched. With a registered identifier [GetHostsFn] is called
    on the flags as they are, whatever [RequiredFlags] lists, and its result
    alone decides how [Update] goes on. *)
Theorem C10_unregistered_provider_panics {U : strings.Unicode} :
  (forall (providers : list host.ServerProvider) (server : string)
          (flags : gmap string string) (w : Store),
      server ∉ host.ID <$> providers ->
      host.Update (foldl host.WithServer host.NewUpdater providers) server flags w
      = (host.Panicked, w))
  /\ (forall (u : host.Updater) (server : string) (provider : host.ServerProvider)
             (getHosts : gmap string string -> Mapping + error)
             (flags : gmap string string) (w : Store),
        host.servers u !! server = Some provider ->
        host.GetHostsFn provider = Some getHosts ->
        host.Update u server flags w
        = match getHosts flags with
          | inr err => (host.Returned (Some ("could not update.... " +:+ err)), w)
          | inl hosts =>
              (host.Returned (host.updateHostsFile hosts w).1,
               (host.updateHostsFile hosts w).2)
          end).
Proof.
  split.
  - intros providers server flags w Hs.
    assert (Hlook : host.servers (foldl host.WithServer host.NewUpdater providers) !! server
                    = None).
    { by rewrite servers_WithServer_other. }
    unfold host.Update. by rewrite Hlook.
  - intros u server provider getHosts flags w Hl Hg.
    unfold host.Update. rewrite Hl. cbn [default from_option id]. rewrite Hg.
    destruct (getHosts flags) as [hosts|err]; [|done].
    by destruct (host.updateHostsFile hosts w).
Qed.

Lemma C10_unregistered_provider_panics_witness :
  let U := noCaseTables in
  let getHosts := fun _ : gmap string string =>
                    inr "could not build edgeos client" : Mapping + error in
  let u := host.WithServer host.NewUpdater (edgeos.Provider getHosts) in
  let w := mkStore None [] [] None [] [] in
  host.Update u "udm-pro" ∅ w = (host.Panicked, w)
  /\ host.Update u "edgeos" ∅ w
     = (host.Returned (Some "could not update.... could not build edgeos client"), w).
Proof.
  cbv zeta. split.
  - refine (proj1 C10_unregistered_provider_panics [_] "udm-pro" ∅ _ _).
    rewrite list_fmap_singleton. intros H%list_elem_of_singleton. discriminate H.
  - exact (proj2 C10_unregistered_provider_panics _ "edgeos"
             (edgeos.Provider (fun _ => inr "could not build edgeos client"))
             (fun _ => inr "could not build edgeos client") ∅ _
             (lookup_insert_eq _ _ _) eq_refl).
Defined.

(** X1 (src/main.go persists). [updateHostsFile] of src/main.go, when the
    file is read and parsed without error and [Save] succeeds, returns [nil]
    and has handed the reconciled table to [Save]; it prints nothing. An
    error of [Read] or of [Save] is returned as it is, and then nothing is
    saved. *)
Theorem X1_main_saves_reconciled_table {U : strings.Unicode} (hosts : list main.Host) (w : Store) :
  (Read w = None -> parseErrors w = [] ->
   let table := reconcile (parsedHosts w)
                  ((fun host => (main.Name host, main.IP host)) <$> hosts) in
   main.updateHostsFile hosts w
   = match saveError w with
     | Some err => (Some err, w)
     | None => (None, mkStore (readError w) (parsedHosts w) (parseErrors w)
                        (saveError w) (table :: saved w) (stdout w))
     end)
  /\ (forall err, Read w = Some err -> main.updateHostsFile hosts w = (Some err, w)).
Proof.
  split.
  - intros Hr Hp table. unfold main.updateHostsFile, Parse, Save.
    rewrite Hr, Hp. cbn [List.length Nat.eqb negb]. done.
  - intros err Hr. unfold main.updateHostsFile. by rewrite Hr.
Qed.

(** X2 (the loop over pointers). [removeHostsThatMatchIPAndNotDomain] with the
    host list and the slice of [FilterByIP] as pointers into a memory, where
    [matchingEntry.Enabled] reads the current flag and [Enable] writes through
    the list, leaves the host list and returns the flag that the definition
    over values computes. *)
Theorem X2_removeHosts_pointers {U : strings.Unicode} (m : pointers.Memory) (hosts : list nat)
    (ip : net.IP) (domain : string) :
  removeHostsThatMatchIPAndNotDomain (pointers.view m hosts) ip domain
  = let '(m', hosts', f) :=
      pointers.removeHostsThatMatchIPAndNotDomain m hosts ip domain in
    (pointers.view m' hosts', f).
Proof.
  unfold removeHostsThatMatchIPAndNotDomain,
    pointers.removeHostsThatMatchIPAndNotDomain.
  rewrite pointers_ContainsIP. destruct (ContainsIP (pointers.view m hosts) ip); [|done].
  rewrite <- pointers_FilterByIP. apply removeLoop_pointers.
  unfold pointers.view. apply Forall2_fmap_r, Forall_Forall2_diag, Forall_forall.
  intros p _. by left.
Qed.

(** X3 (well-formed tables). Reconciliation keeps the table well-formed: if
    no two entries have the same domain and IP version before, none have
    after. *)
Theorem X3_reconcile_wellFormed {U : strings.Unicode} (hosts : Hostlist) (mapping : Mapping) :
  wellFormed hosts -> wellFormed (reconcile hosts mapping).
Proof.
  intros Hwf. apply (reconcile_ind wellFormed); [done|].
  intros h' p _. apply updateHost_wellFormed.
Qed.

Lemma X3_reconcile_wellFormed_witness :
  let U := noCaseTables in
  wellFormed (reconcile [mkHostname "host-a" ip_10_0_0_2 true;
                         mkHostname "host-a" ip_fe80_1 false]
                        [("host-a", ip_10_0_0_1); ("nas", ip_10_0_0_2)]).
Proof.
  apply X3_reconcile_wellFormed.
  apply (bool_decide_unpack _). vm_compute. reflexivity.
Defined.

(** X4 (a pair that is found). For a pair with a name that some entry with
    the address carries up to case, the iteration appends nothing: it keeps,
    in place and with their stored names, the entries that hold the address
    under that name up to case and every entry at another address, and
    removes the entries that hold the address under another name.
    Afterwards every entry that holds the address under exactly the incoming
    name is enabled, and every entry whose name differs from the incoming
    name up to case is an entry of the table as it was, flag included. *)
Theorem X4_match_in_place {U : strings.Unicode} (hosts : Hostlist) (name : string)
    (ip : net.IP) :
  name <> "" -> hasMatch hosts ip name ->
  (fun e => (Domain e, IP e)) <$> updateHost hosts (name, ip)
  = (fun e => (Domain e, IP e)) <$> filter (fun e => ~ stale ip name e) hosts
  /\ (forall e, e ∈ updateHost hosts (name, ip) ->
              IP e = ip -> Domain e = name -> Enabled e = true)
  /\ (forall e, e ∈ updateHost hosts (name, ip) -> ~ sameName name e -> e ∈ hosts).
Proof.
  intros Hn Hm. split_and!.
  - rewrite updateHost_spec, (bool_decide_eq_false_2 _ Hn), (bool_decide_eq_true_2 _ Hm).
    cbv zeta. case_bool_decide; [|done].
    unfold Enable. change (map (enableIf name)) with (fmap (M:=list) (enableIf name)).
    rewrite <- list_fmap_compose. apply list_fmap_ext. intros i e _. cbn.
    by rewrite Domain_enableIf, IP_enableIf.
  - intros e He Hip Hd.
    destruct (Enabled e) eqn:Hen; [done|].
    pose proof (updateHost_disabled _ _ _ _ He Hen) as Hin.
    revert He. rewrite updateHost_spec, (bool_decide_eq_false_2 _ Hn),
      (bool_decide_eq_true_2 _ Hm). cbv zeta.
    rewrite bool_decide_eq_true_2.
    + intros He. pose proof (Enable_enabled (filter (fun e => ~ stale ip name e) hosts) name)
        as Hall. rewrite Forall_forall in Hall. rewrite <- Hen. by apply Hall.
    + apply Exists_exists. exists e. split; [done|]. split; [|done]. split; [done|].
      unfold sameName. by rewrite Hd.
  - intros e He Hs. eapply updateHost_other_domain; [done|].
    intros Hd. apply Hs. unfold sameName. by rewrite Hd.
Qed.

Lemma X4_match_in_place_witness :
  let U := noCaseTables in
  let hosts := [mkHostname "old" ip_10_0_0_1 true; mkHostname "host-a" ip_10_0_0_1 false] in
  (fun e => (Domain e, IP e)) <$> updateHost hosts ("host-a", ip_10_0_0_1)
  = [("host-a", ip_10_0_0_1)].
Proof.
  cbv zeta.
  refine (proj1 (@X4_match_in_place noCaseTables _ "host-a" ip_10_0_0_1 _ _)); [discriminate|].
  apply (bool_decide_unpack _). vm_compute. reflexivity.
Defined.

(** X5 (overrides: the last one for an address wins). For overrides of the
    form [mac=name], where neither part holds ["="], [parseMacOverrides]
    returns a map in which the lower-cased address of an override leads to
    its name when no later override has the same address up to case; the map
    has no key that is not the lower-cased address of an override. *)
Theorem X5_parseMacOverrides_last_wins {U : strings.Unicode} {L : GoLibrary}
    (pairs : list (string * string)) :
  Forall plainPair pairs ->
  exists m, main.parseMacOverrides (overrideFlag <$> pairs) = inl m
    /\ (forall before mac name after,
          pairs = before ++ (mac, name) :: after ->
          strings.ToLower mac ∉ (fun p => strings.ToLower p.1) <$> after ->
          m !! strings.ToLower mac = Some name)
    /\ (forall k, k ∉ (fun p => strings.ToLower p.1) <$> pairs -> m !! k = None).
Proof.
  intros Hp. eexists. split; [by apply parseMacOverridesFrom_pairs|]. split.
  - intros before mac name after -> Hlast.
    apply (foldl_insert_last (fun p => strings.ToLower p.1) snd before (mac, name)).
    exact Hlast.
  - intros k Hk.
    by rewrite (foldl_insert_notin (fun p => strings.ToLower p.1) snd).
Qed.

Lemma X5_parseMacOverrides_last_wins_witness :
  exists m,
    @main.parseMacOverrides noCaseTables exampleLibrary
      ["AA:BB:CC:DD:EE:FF=nas"; "aa:bb:cc:dd:ee:01=tv"; "aa:bb:cc:dd:ee:ff=printer"]
    = inl m
    /\ m !! "aa:bb:cc:dd:ee:ff" = Some "printer"
    /\ m !! "AA:BB:CC:DD:EE:FF" = None.
Proof.
  destruct (@X5_parseMacOverrides_last_wins noCaseTables exampleLibrary
              [("AA:BB:CC:DD:EE:FF", "nas"); ("aa:bb:cc:dd:ee:01", "tv");
               ("aa:bb:cc:dd:ee:ff", "printer")])
    as (m & Hm & Hlast & Hnone).
  - repeat constructor.
  - exists m. split_and!.
    + exact Hm.
    + apply (Hlast [("AA:BB:CC:DD:EE:FF", "nas"); ("aa:bb:cc:dd:ee:01", "tv")]
               "aa:bb:cc:dd:ee:ff" "printer" []); [reflexivity|].
      apply not_elem_of_nil.
    + apply Hnone. apply (bool_decide_unpack _). vm_compute. reflexivity.
Defined.

(** X6 (overrides: what is refused). [parseMacOverrides] returns a map
    exactly when every override holds ["="] once, which is when it is of the
    form [mac=name] with no ["="] in either part (either part may be empty).
    Otherwise it returns the error that quotes the first override that is
    not of this form, whatever follows it. *)
Theorem X6_parseMacOverrides_rejects {U : strings.Unicode} {L : GoLibrary} (overrides : list string) :
  ((exists m, main.parseMacOverrides overrides = inl m)
   <-> Forall (fun o => countByte o "="%char = 1%nat) overrides)
  /\ (Forall (fun o => countByte o "="%char = 1%nat) overrides
      <-> exists pairs, Forall plainPair pairs /\ overrides = overrideFlag <$> pairs)
  /\ (forall good bad rest,
        overrides = good ++ bad :: rest ->
        Forall (fun o => countByte o "="%char = 1%nat) good ->
        countByte bad "="%char <> 1%nat ->
        main.parseMacOverrides overrides = inr (overrideError bad)).
Proof.
  split_and!.
  - apply parseMacOverridesFrom_ok_iff.
  - induction overrides as [|o overrides IH].
    + split; [|by constructor]. intros _. by exists [].
    + rewrite Forall_cons, IH, one_sep_overrideFlag. split.
      * intros [(p & Hp & ->) (pairs & Hpairs & ->)]. exists (p :: pairs).
        split; [by constructor|done].
      * intros ([|p pairs] & Hpairs & Heq); [done|].
        apply Forall_cons in Hpairs as [Hp Hpairs]. injection Heq as -> ->.
        split; [by exists p|by exists pairs].
  - intros good bad rest -> Hg Hb. by apply parseMacOverridesFrom_first_bad.
Qed.

(** X7 (the renaming loop). The loop of [main] over the hosts of the provider
    keeps their number and order and the addresses of every host. A host
    whose hardware address, printed and lower-cased, is a key of the
    overrides gets the override as its name, as it is; any other host gets
    its name with every space replaced by a hyphen, so that no space is left
    in it. What the loop prints are the names as they were. Running the loop
    again changes nothing. *)
Theorem X7_renameHosts {U : strings.Unicode} {L : GoLibrary} (macOverrides : gmap string string)
    (hosts : list main.Host) :
  Forall2 (fun host host' =>
             main.IP host' = main.IP host /\ main.MAC host' = main.MAC host
             /\ match macOverrides !! strings.ToLower (HardwareAddrString (main.MAC host)) with
                | Some override => main.Name host' = override
                | None =>
                    main.Name host' = strings.ReplaceAll (main.Name host) " "%char "-"
                    /\ strings.Contains (main.Name host') " "%char = false
                end)
    hosts (main.renameHosts macOverrides hosts).1
  /\ (main.renameHosts macOverrides hosts).2.*1 = main.Name <$> hosts
  /\ (main.renameHosts macOverrides (main.renameHosts macOverrides hosts).1).1
     = (main.renameHosts macOverrides hosts).1.
Proof.
  unfold main.renameHosts. cbn [fst snd]. split_and!.
  - apply Forall2_fmap_r, Forall_Forall2_diag, Forall_forall. intros host _. unfold compose.
    rewrite renameHost_IP, renameHost_MAC. split_and!; [done|done|].
    destruct (macOverrides !! _) as [o|] eqn:Hm.
    + by rewrite (renameHost_Some _ _ o).
    + rewrite renameHost_None by done. cbn [main.Name].
      split; [done|]. by apply ReplaceAll_Contains.
  - by rewrite <- list_fmap_compose.
  - rewrite <- list_fmap_compose. apply list_fmap_ext. intros i host _. cbn.
    apply renameHost_idemp.
Qed.

(** X8 (an override reaches its host). With the map that [parseMacOverrides]
    returns for overrides of the form [mac=name], the renaming loop gives a
    host the name of the last override whose address equals, up to case, the
    printed hardware address of the host, and leaves its addresses as they
    are; a host for which there is no such override gets its name with the
    spaces replaced by hyphens. *)
Theorem X8_override_renames {U : strings.Unicode} {L : GoLibrary} (pairs : list (string * string)) :
  Forall plainPair pairs ->
  exists m, main.parseMacOverrides (overrideFlag <$> pairs) = inl m
    /\ forall host : main.Host,
        (forall before mac name after,
            pairs = before ++ (mac, name) :: after ->
            strings.ToLower mac ∉ (fun p => strings.ToLower p.1) <$> after ->
            strings.ToLower (HardwareAddrString (main.MAC host)) = strings.ToLower mac ->
            main.renameHost m host = main.mkHost name (main.IP host) (main.MAC host))
        /\ (strings.ToLower (HardwareAddrString (main.MAC host))
              ∉ (fun p => strings.ToLower p.1) <$> pairs ->
            main.renameHost m host
            = main.mkHost (strings.ReplaceAll (main.Name host) " "%char "-")
                (main.IP host) (main.MAC host)).
Proof.
  intros Hp. eexists. split; [by apply parseMacOverridesFrom_pairs|].
  intros host. split.
  - intros before mac name after -> Hlast Hmac. apply renameHost_Some. rewrite Hmac.
    apply (foldl_insert_last (fun p => strings.ToLower p.1) snd before (mac, name)).
    exact Hlast.
  - intros Hnot. apply renameHost_None.
    by rewrite (foldl_insert_notin (fun p => strings.ToLower p.1) snd).
Qed.

Lemma X8_override_renames_witness :
  exists m,
    @main.parseMacOverrides noCaseTables exampleLibrary ["AA:BB:CC:DD:EE:FF=nas"] = inl m
    /\ @main.renameHost noCaseTables exampleLibrary m
         (main.mkHost "My NAS" ip_10_0_0_1 mac_aa)
       = main.mkHost "nas" ip_10_0_0_1 mac_aa.
Proof.
  destruct (@X8_override_renames noCaseTables exampleLibrary
              [("AA:BB:CC:DD:EE:FF", "nas")])
    as (m & Hm & Hhost).
  - repeat constructor.
  - exists m. split; [exact Hm|].
    apply (proj1 (Hhost (main.mkHost "My NAS" ip_10_0_0_1 mac_aa))
             [] "AA:BB:CC:DD:EE:FF" "nas" []); [reflexivity| |reflexivity].
    apply not_elem_of_nil.
Defined.

(** X9 (UDM Pro: all hosts or none). When the request for the active clients
    is answered, with whatever status, and its body decodes, [GetHosts] of
    src/udm-pro.go returns either one host per device, in the order of the
    devices, or the error of the first hardware address that does not parse
    and no host at all. The host of a device has the parsed hardware
    address, the hostname of the device or, when that is empty, its display
    name, and what [net.ParseIP] returns for its address, the nil address
    included. *)
Theorem X9_udm_GetHosts_all_or_nothing
    {L : GoLibrary} {N : Network} {J : udmProHostsProvider.Json}
    (u : udmProHostsProvider.udmProHostsProvider) (resp : http.Response)
    (devices : list udmProHostsProvider.clientResponseItem) :
  Get ("https://" +:+ udmProHostsProvider.address u +:+ "/proxy/network/v2/api/site/"
       +:+ udmProHostsProvider.site u +:+ "/clients/active") = inl resp ->
  udmProHostsProvider.decodeClients (http.Body resp) = inl devices ->
  (forall hosts,
      udmProHostsProvider.GetHosts u = inl hosts <-> Forall2 hostOfDevice devices hosts)
  /\ (forall good bad rest err,
        devices = good ++ bad :: rest ->
        Forall (fun d => exists mac, ParseMAC (udmProHostsProvider.ItemMAC d) = inl mac) good ->
        ParseMAC (udmProHostsProvider.ItemMAC bad) = inr err ->
        udmProHostsProvider.GetHosts u = inr err).
Proof.
  intros Hget Hdec. unfold udmProHostsProvider.GetHosts. rewrite Hget, Hdec. split.
  - intros hosts. rewrite hostsOf_inl. split.
    + by intros (tail & -> & HF).
    + intros HF. by exists hosts.
  - intros good bad rest err -> Hg Hb. by apply hostsOf_inr.
Qed.

Lemma X9_udm_GetHosts_all_or_nothing_witness :
  @udmProHostsProvider.GetHosts exampleLibrary exampleNetwork exampleUdmJson
    (udmProHostsProvider.mkProvider "192.168.1.1" "default")
  = inl [main.mkHost "My NAS" ip_10_0_0_1 mac_aa;
         main.mkHost "living-room" net.Nil mac_aa].
Proof.
  refine (proj2 (proj1 (@X9_udm_GetHosts_all_or_nothing exampleLibrary exampleNetwork
                          exampleUdmJson (udmProHostsProvider.mkProvider "192.168.1.1" "default")
                          (http.mkResponse 200 "clients") _ _ _) _) _).
  - vm_compute. reflexivity.
  - vm_compute. reflexivity.
  - repeat constructor.
Defined.

(** X10 (UDM Pro: no site). [newUDMProHostsProvider] panics exactly when the
    cookie jar is built, the login request and the request for the sites
    are answered, and the body of the latter decodes to an empty list of
    sites. What the router answered to the login is not looked at. When a
    provider is returned it has the address it was given and the name of
    the first site. *)
Theorem X10_udm_no_site_panics
    {L : GoLibrary} {N : Network} {J : udmProHostsProvider.Json}
    (address username password : string) :
  (udmProHostsProvider.newUDMProHostsProvider address username password = Panic
   <-> cookiejarNew = None
       /\ (exists login,
              Post ("https://" +:+ address +:+ "/api/auth/login") "application/json"
                (udmProHostsProvider.marshalLogin username password) = inl login)
       /\ (exists resp,
              Get ("https://" +:+ address +:+ "/proxy/network/api/self/sites") = inl resp
              /\ udmProHostsProvider.decodeSites (http.Body resp) = inl []))
  /\ (forall p,
        udmProHostsProvider.newUDMProHostsProvider address username password = Ok p ->
        udmProHostsProvider.address p = address
        /\ exists resp first rest,
             Get ("https://" +:+ address +:+ "/proxy/network/api/self/sites") = inl resp
             /\ udmProHostsProvider.decodeSites (http.Body resp) = inl (first :: rest)
             /\ udmProHostsProvider.site p = udmProHostsProvider.SiteName first).
Proof.
  unfold udmProHostsProvider.newUDMProHostsProvider.
  destruct cookiejarNew as [e|]; [split; [split; [done|by intros [? _]]|done]|].
  destruct (Post _ _ _) as [login|e];
    [|split; [split; [done|by intros (_ & [? ?] & _)]|done]].
  destruct (Get _) as [resp|e];
    [|split; [split; [done|by intros (_ & _ & ? & ? & _)]|done]].
  destruct (udmProHostsProvider.decodeSites (http.Body resp)) as [[|first rest]|e] eqn:Hd.
  - split; [|done]. split; [|done]. intros _. split_and!; [done|by exists login|].
    by exists resp.
  - split.
    + split; [done|]. intros (_ & _ & resp' & [= <-] & Hd'). congruence.
    + intros p [= <-]. split; [done|]. by exists resp, first, rest.
  - split; [|done]. split; [done|]. intros (_ & _ & resp' & [= <-] & Hd'). congruence.
Qed.

(** X11 (EdgeOS: the leases). [populateDynamicHosts] leaves the map as it was
    whenever it returns an error, which it does, naming the status, for an
    answer with a status other than 200, whatever its body. It returns [nil]
    only when the request is answered with status 200 and a body that
    decodes; then every name that no lease carries has the address it had,
    and the client hostname of a lease has the parsed address of that lease
    (the nil address when it does not parse) when no lease visited later
    carries the same hostname. *)
Theorem X11_populateDynamicHosts {L : GoLibrary} {N : Network} {J : edgeos.Json}
    (c : edgeos.client) (hosts : gmap string net.IP) :
  let url := "https://" +:+ edgeos.address c +:+ "/api/edge/data.json?data=dhcp_leases" in
  let r := edgeos.populateDynamicHosts c hosts in
  (r.2 <> None -> r.1 = hosts)
  /\ (forall resp, Get url = inl resp -> http.StatusCode resp <> 200%Z ->
        r.2 = Some ("request for dynamic hosts returned a non 200 status code "
                    +:+ dquote +:+ pretty (http.StatusCode resp) +:+ dquote))
  /\ (r.2 = None ->
      exists resp decoded,
        Get url = inl resp /\ http.StatusCode resp = 200%Z
        /\ edgeos.decodeLeases (http.Body resp) = inl decoded
        /\ let leases := leasesOf (edgeos.DHCPServerLeases (edgeos.Output decoded)) in
           (forall name, name ∉ (fun lease => edgeos.ClientHostname lease.2) <$> leases ->
              r.1 !! name = hosts !! name)
           /\ (forall before lease after,
                 leases = before ++ lease :: after ->
                 edgeos.ClientHostname lease.2
                   ∉ (fun lease => edgeos.ClientHostname lease.2) <$> after ->
                 r.1 !! edgeos.ClientHostname lease.2 = Some (ParseIP lease.1))).
Proof.
  intros url r. subst url r.
  destruct (edgeos.populateDynamicHosts c hosts) as [hosts' [err|]] eqn:Hr; cbn [fst snd].
  - split_and!; [| |done].
    + intros _. by eapply populateDynamicHosts_Some.
    + intros resp Hget Hs. revert Hr. unfold edgeos.populateDynamicHosts, http.StatusOK.
      rewrite Hget, (bool_decide_eq_false_2 _ Hs). cbn [negb]. by intros [= _ <-].
  - apply populateDynamicHosts_None in Hr as (resp & decoded & Hget & Hs & Hd & ->).
    split_and!; [done| |].
    + intros resp' Hget' Hs'. congruence.
    + intros _. exists resp, decoded. split_and!; [done..| |].
      * intros name Hn. rewrite addLeases_flat.
        by rewrite (foldl_insert_notin (fun lease => edgeos.ClientHostname lease.2)
                      (fun lease => ParseIP lease.1)).
      * intros before lease after Hl Hlast. rewrite addLeases_flat, Hl.
        by apply (foldl_insert_last (fun lease => edgeos.ClientHostname lease.2)
                    (fun lease => ParseIP lease.1)).
Qed.

(** X12 (EdgeOS: the static mappings). [populateStaticHosts] leaves the map
    as it was whenever it returns an error, which it does, naming the status,
    for an answer with a status other than 200. It returns [nil] only when
    the request is answered with status 200 and a body that decodes; then a
    name that no static mapping has keeps its address, and the name of a
    static mapping has the parsed address of that mapping when no mapping
    visited later, in any subnet of any shared network, has the same name. *)
Theorem X12_populateStaticHosts {L : GoLibrary} {N : Network} {J : edgeos.Json}
    (c : edgeos.client) (hosts : gmap string net.IP) :
  let url := "https://" +:+ edgeos.address c +:+ "/api/edge/get.json" in
  let r := edgeos.populateStaticHosts c hosts in
  (r.2 <> None -> r.1 = hosts)
  /\ (forall resp, Get url = inl resp -> http.StatusCode resp <> 200%Z ->
        r.2 = Some ("request for static hosts returned a non 200 status code "
                    +:+ dquote +:+ pretty (http.StatusCode resp) +:+ dquote))
  /\ (r.2 = None ->
      exists resp decoded,
        Get url = inl resp /\ http.StatusCode resp = 200%Z
        /\ edgeos.decodeGet (http.Body resp) = inl decoded
        /\ let staticMappings :=
             staticMappingsOf
               (edgeos.SharedNetwork (edgeos.DHCPServer (edgeos.Service (edgeos.GET decoded))))
           in
           (forall name, name ∉ staticMappings.*1 -> r.1 !! name = hosts !! name)
           /\ (forall before staticMapping after,
                 staticMappings = before ++ staticMapping :: after ->
                 staticMapping.1 ∉ after.*1 ->
                 r.1 !! staticMapping.1
                 = Some (ParseIP (edgeos.IPAddress staticMapping.2)))).
Proof.
  intros url r. subst url r.
  destruct (edgeos.populateStaticHosts c hosts) as [hosts' [err|]] eqn:Hr; cbn [fst snd].
  - split_and!; [| |done].
    + intros _. by eapply populateStaticHosts_Some.
    + intros resp Hget Hs. revert Hr. unfold edgeos.populateStaticHosts, http.StatusOK.
      rewrite Hget, (bool_decide_eq_false_2 _ Hs). cbn [negb]. by intros [= _ <-].
  - apply populateStaticHosts_None in Hr as (resp & decoded & Hget & Hs & Hd & ->).
    split_and!; [done| |].
    + intros resp' Hget' Hs'. congruence.
    + intros _. exists resp, decoded. split_and!; [done..| |].
      * intros name Hn. rewrite addStaticMappings_flat.
        by rewrite (foldl_insert_notin fst
                      (fun staticMapping => ParseIP (edgeos.IPAddress staticMapping.2))).
      * intros before staticMapping after Hl Hlast. rewrite addStaticMappings_flat, Hl.
        by apply (foldl_insert_last fst
                    (fun staticMapping => ParseIP (edgeos.IPAddress staticMapping.2))).
Qed.

(** X13 (EdgeOS: the order of the maps). The loops of [populateDynamicHosts]
    and [populateStaticHosts] range over Go maps, whose order is not fixed.
    When no two leases carry the same client hostname, the map after the
    loop over the leases is the same for every order of the groups and of
    the leases; so it is for the static mappings when no two of them have
    the same name. When two leases of a group carry the same hostname and
    their addresses parse differently, the map depends on which of the two
    is visited last. *)
Theorem X13_range_order {L : GoLibrary} :
  (forall leases leases' hosts,
      leasesOf leases ≡ₚ leasesOf leases' ->
      NoDup ((fun lease => edgeos.ClientHostname lease.2) <$> leasesOf leases) ->
      edgeos.addLeases leases hosts = edgeos.addLeases leases' hosts)
  /\ (forall sharedNetworks sharedNetworks' hosts,
        staticMappingsOf sharedNetworks ≡ₚ staticMappingsOf sharedNetworks' ->
        NoDup (staticMappingsOf sharedNetworks).*1 ->
        edgeos.addStaticMappings sharedNetworks hosts
        = edgeos.addStaticMappings sharedNetworks' hosts)
  /\ (forall group name ip1 ip2 hosts,
        ParseIP ip1 <> ParseIP ip2 ->
        edgeos.addLeases [(group, [(ip1, edgeos.mkDhcpServerLease name);
                                   (ip2, edgeos.mkDhcpServerLease name)])] hosts
        <> edgeos.addLeases [(group, [(ip2, edgeos.mkDhcpServerLease name);
                                      (ip1, edgeos.mkDhcpServerLease name)])] hosts).
Proof.
  split_and!.
  - intros leases leases' hosts Hp Hn. rewrite !addLeases_flat.
    by apply (foldl_insert_perm (fun lease => edgeos.ClientHostname lease.2)
                (fun lease => ParseIP lease.1)).
  - intros sn sn' hosts Hp Hn. rewrite !addStaticMappings_flat.
    by apply (foldl_insert_perm fst
                (fun staticMapping => ParseIP (edgeos.IPAddress staticMapping.2))).
  - intros group name ip1 ip2 hosts Hne Heq.
    apply (f_equal (fun m => m !! name)) in Heq. revert Heq.
    unfold edgeos.addLeases. cbn. rewrite !lookup_insert_eq. congruence.
Qed.

(** X14 (EdgeOS: a static mapping beats a lease). When the login and both
    requests are answered, the latter two with status 200 and bodies that
    decode, the [GetHostsFn] of src/internal/edgeos returns a map that holds,
    for the name of a static mapping, an address of a static mapping of that
    name, whatever the leases say; for any other client hostname of a lease,
    an address of a lease of that name; and no other name. A flag that is
    missing is read as the empty string. *)
Theorem X14_GetHostsFn_static_first {L : GoLibrary} {N : Network} {J : edgeos.Json}
    (flags : gmap string string) (login resp1 resp2 : http.Response)
    (decoded1 : edgeos.dhcpLeasesResponse) (decoded2 : edgeos.edgeOSGet) :
  cookiejarNew = None ->
  PostForm ("https://" +:+ default "" (flags !! "address") +:+ "/")
    [("username", [default "" (flags !! "username")]);
     ("password", [default "" (flags !! "password")])] = inl login ->
  Get ("https://" +:+ default "" (flags !! "address")
       +:+ "/api/edge/data.json?data=dhcp_leases") = inl resp1 ->
  http.StatusCode resp1 = 200%Z ->
  edgeos.decodeLeases (http.Body resp1) = inl decoded1 ->
  Get ("https://" +:+ default "" (flags !! "address") +:+ "/api/edge/get.json") = inl resp2 ->
  http.StatusCode resp2 = 200%Z ->
  edgeos.decodeGet (http.Body resp2) = inl decoded2 ->
  exists hosts,
    edgeos.GetHostsFn flags = inl hosts
    /\ prefers
         (staticEntries
            (staticMappingsOf
               (edgeos.SharedNetwork (edgeos.DHCPServer (edgeos.Service (edgeos.GET decoded2))))))
         (leaseEntries edgeos.ClientHostname
            (leasesOf (edgeos.DHCPServerLeases (edgeos.Output decoded1))))
         hosts.
Proof.
  intros Hjar Hlogin Hg1 Hs1 Hd1 Hg2 Hs2 Hd2.
  assert (Hc : edgeos.newClient (default "" (flags !! "address"))
                 (default "" (flags !! "username")) (default "" (flags !! "password"))
               = inl (edgeos.mkClient (default "" (flags !! "address")))).
  { apply newClient_inl. split_and!; [done|by exists login|done]. }
  eexists. split.
  - unfold edgeos.GetHostsFn. rewrite Hc.
    erewrite (proj2 (populateDynamicHosts_None _ _ _)); cycle 1.
    { exists resp1, decoded1. by split_and!. }
    erewrite (proj2 (populateStaticHosts_None _ _ _)); cycle 1.
    { exists resp2, decoded2. by split_and!. }
    reflexivity.
  - rewrite addStaticMappings_entries, addLeases_entries. apply foldl_insert_prefers.
Qed.

Lemma X14_GetHostsFn_static_first_witness :
  exists hosts,
    @edgeos.GetHostsFn exampleLibrary exampleNetwork exampleEdgeosJson
      {[ "address" := "192.168.1.1"; "username" := "ubnt"; "password" := "ubnt" ]}
    = inl hosts
    /\ prefers [("nas", ip_10_0_0_2)]
         [("nas", ip_10_0_0_1); ("tv", ip_10_0_0_2)] hosts.
Proof.
  refine (@X14_GetHostsFn_static_first exampleLibrary exampleNetwork exampleEdgeosJson
            {[ "address" := "192.168.1.1"; "username" := "ubnt"; "password" := "ubnt" ]}
            (http.mkResponse 200 "") (http.mkResponse 200 "leases") (http.mkResponse 200 "get")
            exampleLeasesResponse exampleGetResponse _ _ _ _ _ _ _ _);
    vm_compute; reflexivity.
Defined.

(** X15 (EdgeOS: a map or an error). The [GetHostsFn] of src/internal/edgeos
    returns a map exactly when the cookie jar is built, the login is
    answered, and both requests are answered with status 200 and bodies
    that decode; in every other case it returns an error and no map. An
    error of [newClient] comes back behind the prefix of the provider. *)
Theorem X15_GetHostsFn_map_or_error {L : GoLibrary} {N : Network} {J : edgeos.Json}
    (flags : gmap string string) :
  ((exists hosts, edgeos.GetHostsFn flags = inl hosts)
   <-> cookiejarNew = None
       /\ (exists login,
              PostForm ("https://" +:+ default "" (flags !! "address") +:+ "/")
                [("username", [default "" (flags !! "username")]);
                 ("password", [default "" (flags !! "password")])] = inl login)
       /\ (exists resp decoded,
              Get ("https://" +:+ default "" (flags !! "address")
                   +:+ "/api/edge/data.json?data=dhcp_leases") = inl resp
              /\ http.StatusCode resp = 200%Z
              /\ edgeos.decodeLeases (http.Body resp) = inl decoded)
       /\ (exists resp decoded,
              Get ("https://" +:+ default "" (flags !! "address") +:+ "/api/edge/get.json")
              = inl resp
              /\ http.StatusCode resp = 200%Z
              /\ edgeos.decodeGet (http.Body resp) = inl decoded))
  /\ (forall err,
        edgeos.newClient (default "" (flags !! "address")) (default "" (flags !! "username"))
          (default "" (flags !! "password")) = inr err ->
        edgeos.GetHostsFn flags = inr ("could not build edgeos client: " +:+ err)).
Proof.
  split; [|intros err Hc; unfold edgeos.GetHostsFn; by rewrite Hc].
  unfold edgeos.GetHostsFn.
  destruct (edgeos.newClient _ _ _) as [c|err] eqn:Hc.
  - apply newClient_inl in Hc as (Hjar & Hlogin & ->). cbn [edgeos.address].
    destruct (edgeos.populateDynamicHosts _ ∅) as [hosts1 [err|]] eqn:H1.
    + split; [by intros [? ?]|]. intros (_ & _ & (resp & decoded & Hg & Hs & Hd) & _).
      assert (Hnone : edgeos.populateDynamicHosts
                        (edgeos.mkClient (default "" (flags !! "address"))) ∅
                      = (edgeos.addLeases (edgeos.DHCPServerLeases (edgeos.Output decoded)) ∅,
                         None)).
      { apply populateDynamicHosts_None. by exists resp, decoded. }
      congruence.
    + pose proof H1 as (resp1 & decoded1 & Hg1 & Hs1 & Hd1 & _)%populateDynamicHosts_None.
      destruct (edgeos.populateStaticHosts _ hosts1) as [hosts2 [err|]] eqn:H2.
      * split; [by intros [? ?]|]. intros (_ & _ & _ & (resp & decoded & Hg & Hs & Hd)).
        assert (Hnone : edgeos.populateStaticHosts
                          (edgeos.mkClient (default "" (flags !! "address"))) hosts1
                        = (edgeos.addStaticMappings
                             (edgeos.SharedNetwork
                                (edgeos.DHCPServer (edgeos.Service (edgeos.GET decoded))))
                             hosts1, None)).
        { apply populateStaticHosts_None. by exists resp, decoded. }
        congruence.
      * pose proof H2 as (resp2 & decoded2 & Hg2 & Hs2 & Hd2 & _)%populateStaticHosts_None.
        split; [|by exists hosts2]. intros _. split_and!; [done|done| |].
        -- by exists resp1, decoded1.
        -- by exists resp2, decoded2.
  - split; [by intros [? ?]|]. intros (Hjar & [login Hlogin] & _).
    assert (Hok : edgeos.newClient (default "" (flags !! "address"))
                    (default "" (flags !! "username")) (default "" (flags !! "password"))
                  = inl (edgeos.mkClient (default "" (flags !! "address")))).
    { apply newClient_inl. split_and!; [done|by exists login|done]. }
    congruence.
Qed.

(** X16 (src/edgeos.go: a lease beats a static mapping). When the cookie jar
    is built and the login form is answered, [newEdgeOSHostsProvider]
    returns a provider, whatever the answer to the login was. When both
    requests of its [GetHosts] are then answered, with whatever status, and
    their bodies decode, [GetHosts] returns a map that holds, for the client
    hostname of a lease, an address of a lease of that name, whatever the
    static mappings say; for any other name of a static mapping, an address
    of a static mapping of that name; and no other name. This is the other
    way round than in src/internal/edgeos. *)
Theorem X16_old_GetHosts_lease_first
    {L : GoLibrary} {N : Network} {J : edgeOSHostsProvider.Json}
    (address username password : string) (login resp1 resp2 : http.Response)
    (leases : list (string * list (string * edgeOSHostsProvider.dhcpServerLease)))
    (sharedNetworks : list (string * edgeos.edgeOSSharedNetwork)) :
  cookiejarNew = None ->
  PostForm ("https://" +:+ address +:+ "/")
    [("username", [username]); ("password", [password])] = inl login ->
  Get ("https://" +:+ address +:+ "/api/edge/data.json?data=dhcp_leases") = inl resp1 ->
  edgeOSHostsProvider.decodeLeases (http.Body resp1) = inl leases ->
  Get ("https://" +:+ address +:+ "/api/edge/get.json") = inl resp2 ->
  edgeOSHostsProvider.decodeGet (http.Body resp2) = inl sharedNetworks ->
  exists e hosts,
    edgeOSHostsProvider.newEdgeOSHostsProvider address username password = inl e
    /\ edgeOSHostsProvider.GetHosts e = Some hosts
    /\ prefers (leaseEntries edgeOSHostsProvider.ClientHostname (leasesOf leases))
         (staticEntries (staticMappingsOf sharedNetworks)) hosts.
Proof.
  intros Hjar Hlogin Hg1 Hd1 Hg2 Hd2.
  exists (edgeOSHostsProvider.mkProvider address). eexists. split_and!.
  - unfold edgeOSHostsProvider.newEdgeOSHostsProvider. by rewrite Hjar, Hlogin.
  - apply GetHosts_Some. exists resp1, leases, resp2, sharedNetworks. by split_and!.
  - apply foldl_insert_prefers.
Qed.

Lemma X16_old_GetHosts_lease_first_witness :
  exists e hosts,
    @edgeOSHostsProvider.newEdgeOSHostsProvider exampleLibrary exampleNetwork
      "192.168.1.1" "ubnt" "ubnt" = inl e
    /\ @edgeOSHostsProvider.GetHosts exampleLibrary exampleNetwork exampleOldEdgeosJson e
       = Some hosts
    /\ prefers [("nas", ip_10_0_0_1); ("tv", ip_10_0_0_2)]
         [("nas", ip_10_0_0_2)] hosts.
Proof.
  refine (@X16_old_GetHosts_lease_first exampleLibrary exampleNetwork exampleOldEdgeosJson
            "192.168.1.1" "ubnt" "ubnt"
            (http.mkResponse 200 "") (http.mkResponse 200 "leases") (http.mkResponse 200 "get")
            exampleOldLeases exampleSharedNetworks _ _ _ _ _ _);
    vm_compute; reflexivity.
Defined.

(** X17 (src/edgeos.go: panics). [GetHosts] of src/edgeos.go panics exactly
    when one of its two requests is not answered or the body of an answer
    does not decode; otherwise it returns a map. The status of an answer
    plays no part. *)
Theorem X17_old_GetHosts_panics
    {L : GoLibrary} {N : Network} {J : edgeOSHostsProvider.Json}
    (e : edgeOSHostsProvider.edgeOSHostsProvider) :
  edgeOSHostsProvider.GetHosts e = None
  <-> ~ exists resp1 leases resp2 sharedNetworks,
          Get ("https://" +:+ edgeOSHostsProvider.address e
               +:+ "/api/edge/data.json?data=dhcp_leases") = inl resp1
          /\ edgeOSHostsProvider.decodeLeases (http.Body resp1) = inl leases
          /\ Get ("https://" +:+ edgeOSHostsProvider.address e +:+ "/api/edge/get.json")
             = inl resp2
          /\ edgeOSHostsProvider.decodeGet (http.Body resp2) = inl sharedNetworks.
Proof.
  destruct (edgeOSHostsProvider.GetHosts e) as [hosts|] eqn:Hg.
  - apply GetHosts_Some in Hg as (resp1 & leases & resp2 & sn & H1 & H2 & H3 & H4 & _).
    split; [done|]. intros Hno. destruct Hno. by exists resp1, leases, resp2, sn.
  - split; [|done]. intros _ (resp1 & leases & resp2 & sn & H1 & H2 & H3 & H4).
    assert (Hsome : exists hosts, edgeOSHostsProvider.GetHosts e = Some hosts).
    { eexists. apply GetHosts_Some. exists resp1, leases, resp2, sn. by split_and!. }
    destruct Hsome as [hosts Hsome]. congruence.
Qed.

(** X18 (registering a provider). After [WithServer], [Update] with the
    identifier of the provider calls the [GetHostsFn] of that provider on
    the flags, whatever was registered under the identifier before, and
    panics when that [GetHostsFn] is nil; [Update] with any other
    identifier goes as it did before the registration. Registering twice
    under one identifier leaves only the second provider. *)
Theorem X18_WithServer_then_Update {U : strings.Unicode} (u : host.Updater) (server : host.ServerProvider)
    (flags : gmap string string) (w : Store) :
  host.Update (host.WithServer u server) (host.ID server) flags w
  = match host.GetHostsFn server with
    | None => (host.Panicked, w)
    | Some getHosts =>
        match getHosts flags with
        | inr err => (host.Returned (Some ("could not update.... " +:+ err)), w)
        | inl hosts =>
            (host.Returned (host.updateHostsFile hosts w).1,
             (host.updateHostsFile hosts w).2)
        end
    end
  /\ (forall id, id <> host.ID server ->
        host.Update (host.WithServer u server) id flags w = host.Update u id flags w)
  /\ (forall server', host.ID server' = host.ID server ->
        host.WithServer (host.WithServer u server') server = host.WithServer u server).
Proof.
  split_and!.
  - unfold host.Update, host.WithServer. cbn [host.servers].
    rewrite lookup_insert_eq. cbn [default from_option id].
    destruct (host.GetHostsFn server) as [getHosts|]; [|done].
    destruct (getHosts flags) as [hosts|err]; [|done].
    by destruct (host.updateHostsFile hosts w).
  - intros id Hid. unfold host.Update, host.WithServer. cbn [host.servers].
    by rewrite lookup_insert_ne.
  - intros server' Hid. unfold host.WithServer. cbn [host.servers].
    by rewrite Hid, insert_insert_eq.
Qed.

(** X19 (the two pipelines reconcile alike). On a hosts file that [Save]
    would write, [updateHostsFile] of src/main.go and [updateHostsFile] of
    src/pkg/host, given the same names and addresses in the same order,
    return the same error value. When it is an error, both leave the store
    as it was. When it is [nil], the table that the first hands to [Save],
    printing nothing, is the table that the second prints after the line
    [hostfile.Hosts], saving nothing. *)
Theorem X19_pipelines_reconcile_alike {U : strings.Unicode} (hosts : list main.Host) (w : Store) :
  saveError w = None ->
  let mapping := (fun host => (main.Name host, main.IP host)) <$> hosts in
  (main.updateHostsFile hosts w).1 = (host.updateHostsFile mapping w).1
  /\ (forall err, (main.updateHostsFile hosts w).1 = Some err ->
        (main.updateHostsFile hosts w).2 = w /\ (host.updateHostsFile mapping w).2 = w)
  /\ ((main.updateHostsFile hosts w).1 = None ->
      exists table,
        saved (main.updateHostsFile hosts w).2 = table :: saved w
        /\ stdout (main.updateHostsFile hosts w).2 = stdout w
        /\ saved (host.updateHostsFile mapping w).2 = saved w
        /\ stdout (host.updateHostsFile mapping w).2
           = stdout w ++ [inl "hostfile.Hosts"; inr table]).
Proof.
  intros Hsave mapping. subst mapping.
  unfold main.updateHostsFile, host.updateHostsFile, Read, Parse, Save.
  destruct (readError w) as [err|]; [by split_and!; [|intros ? [= <-]|]|].
  destruct (negb (List.length (parseErrors w) =? 0)%nat);
    [by split_and!; [|intros ? [= <-]|]|].
  rewrite Hsave. cbn [fst snd]. split_and!; [done|done|].
  intros _. eexists. split_and!; [reflexivity|reflexivity|reflexivity|].
  unfold Println. cbn [stdout]. by rewrite <- app_assoc.
Qed.

Lemma X19_pipelines_reconcile_alike_witness :
  let U := noCaseTables in
  let w := mkStore None [mkHostname "old" ip_10_0_0_1 true] [] None [] [] in
  let hosts := [main.mkHost "nas" ip_10_0_0_1 mac_aa] in
  saved (main.updateHostsFile hosts w).2 = [[mkHostname "nas" ip_10_0_0_1 true]]
  /\ stdout (host.updateHostsFile [("nas", ip_10_0_0_1)] w).2
     = [inl "hostfile.Hosts"; inr [mkHostname "nas" ip_10_0_0_1 true]].
Proof.
  cbv zeta.
  destruct (@X19_pipelines_reconcile_alike noCaseTables
              [main.mkHost "nas" ip_10_0_0_1 mac_aa]
              (mkStore None [mkHostname "old" ip_10_0_0_1 true] [] None [] []) eq_refl)
    as (_ & _ & Hok).
  destruct (Hok eq_refl) as (table & Hs & _ & _ & Hp).
  assert (Ht : table = [mkHostname "nas" ip_10_0_0_1 true]).
  { vm_compute in Hs. by injection Hs as <-. }
  subst table. split; [exact Hs|exact Hp].
Defined.

(** X20 (a host without a name after the renaming). A host that leaves the
    renaming loop with the empty name, because its override is the empty
    name or because it has no override and no name, takes no part in the
    update: [updateHostsFile] of src/main.go on the renamed hosts returns
    what it returns, and leaves the store that it leaves, without that
    host. *)
Theorem X20_nameless_host_is_dropped {U : strings.Unicode} {L : GoLibrary} (macOverrides : gmap string string)
    (before after : list main.Host) (host : main.Host) (w : Store) :
  macOverrides !! strings.ToLower (HardwareAddrString (main.MAC host)) = Some ""
  \/ (macOverrides !! strings.ToLower (HardwareAddrString (main.MAC host)) = None
      /\ main.Name host = "") ->
  main.updateHostsFile (main.renameHosts macOverrides (before ++ host :: after)).1 w
  = main.updateHostsFile (main.renameHosts macOverrides (before ++ after)).1 w.
Proof.
  intros Hname.
  assert (Hempty : main.Name (main.renameHost macOverrides host) = "").
  { destruct Hname as [Hs|[Hn Hh]].
    - by rewrite (renameHost_Some _ _ "").
    - rewrite renameHost_None by done. cbn [main.Name]. by rewrite Hh. }
  unfold main.updateHostsFile, main.renameHosts. cbn [fst].
  destruct (Read w); [done|]. destruct (Parse w) as [hostfileHosts errs].
  destruct (negb _); [done|]. f_equal.
  rewrite !fmap_app, !fmap_cons, !reconcile_app, reconcile_cons.
  by rewrite Hempty.
Qed.

Lemma X20_nameless_host_is_dropped_witness :
  let w := mkStore None [mkHostname "nas" ip_10_0_0_1 true] [] None [] [] in
  @main.updateHostsFile noCaseTables
    (@main.renameHosts noCaseTables exampleLibrary {[ "aa:bb:cc:dd:ee:ff" := "" ]}
       [main.mkHost "My NAS" ip_10_0_0_2 mac_aa]).1 w
  = @main.updateHostsFile noCaseTables
      (@main.renameHosts noCaseTables exampleLibrary {[ "aa:bb:cc:dd:ee:ff" := "" ]} []).1 w.
Proof.
  cbv zeta.
  refine (@X20_nameless_host_is_dropped noCaseTables exampleLibrary
            {[ "aa:bb:cc:dd:ee:ff" := "" ]} [] []
            (main.mkHost "My NAS" ip_10_0_0_2 mac_aa) _ _).
  left. vm_compute. reflexivity.
Defined.
